(** * Chart view ([src/grapn.tsx]): scales, coordinate mapping, renderer
      and hit tester

    The component computes with JavaScript numbers.  Its code is embedded
    once, over an interface of the operations it uses ([Number], and
    [Metric] for the two extra operations of the hit tester), and read
    over two number structures (the hit tester over the first only:
    rationals have neither square roots nor an infinity):

    - [binary64]: IEEE 754 double precision as specified by the standard
      library's [SpecFloat] (NaN, signed zeros, infinities and rounding to
      nearest even), which is what the engine computes;
    - [Q]: exact rationals: what the formulas give without rounding,
      overflow, NaN or infinities.  A statement over [Q] says so, and is
      not a statement about the doubles the engine computes; where the two
      differ, what holds in binary64 is stated beside it.

    Conventions of the embedding:
    - array reads are partial ([read]): [None] stands for reading an
      element that is not there ([undefined] in the source), and a loop
      that meets one stops with [None];
    - loop counters are integers, turned into numbers by [lit] where the
      source computes with them (they stay below 2^53);
    - the drawing context is the list of calls and property writes made
      on it, in order; texts are kept as the numbers they format;
    - the grid loops, whose bound is a number, take fuel; eleven
      iterations are shown to exhaust them. *)

From Stdlib Require Import String ZArith QArith Qminmax Qround Bool Lia List.
From Stdlib Require Import Floats.SpecFloat Lqa.
Import ListNotations.

Set Implicit Arguments.

(** ** The number interface *)

Declare Scope js_scope.
Delimit Scope js_scope with js.

(** The operations of JavaScript numbers that lines 28-168 use. *)
Class Number (A : Type) : Type := {
  add : A -> A -> A;
  sub : A -> A -> A;
  mul : A -> A -> A;
  div : A -> A -> A;
  leb : A -> A -> bool;            (* a <= b *)
  ltb : A -> A -> bool;            (* a < b *)
  truthy : A -> bool;              (* ToBoolean(a) *)
  Math_min : list A -> A;          (* Math.min(...args) *)
  Math_max : list A -> A;          (* Math.max(...args) *)
  lit : Z -> A                     (* an integer literal or loop counter *)
}.

(** What the hit tester needs on top: [Math.sqrt] and [Infinity]. *)
Class Metric (A : Type) `{Number A} : Type := {
  Math_sqrt : A -> A;
  Infinity : A
}.

Arguments Metric A {_}.

Infix "+" := add : js_scope.
Infix "-" := sub : js_scope.
Infix "*" := mul : js_scope.
Infix "/" := div : js_scope.
Infix "<=?" := leb : js_scope.
Infix "<?" := ltb : js_scope.

(** [a || b] on numbers: [a] when it is truthy, [b] otherwise. *)
Definition orElse {A} `{Number A} (a b : A) : A :=
  if truthy a then a else b.

Infix "||" := orElse : js_scope.

(** [Math.pow(x, 2)]: the square, as one rounded product. *)
Definition Math_pow2 {A} `{Number A} (x : A) : A := (x * x)%js.

(** ** IEEE 754 binary64 *)

Module F64.

Definition prec : Z := 53.
Definition emax : Z := 1024.

Definition t : Type := spec_float.

Definition NaN : t := S754_nan.
Definition pInf : t := S754_infinity false.
Definition nInf : t := S754_infinity true.

(** The double nearest to an integer. *)
Definition of_Z (z : Z) : t := binary_normalize prec emax z 0 false.

(** ToBoolean: [+0], [-0] and [NaN] are falsy. *)
Definition truthy (x : t) : bool :=
  match x with
  | S754_zero _ | S754_nan => false
  | _ => true
  end.

(** One step of [Math.min] (ECMAScript 21.3.2.25): NaN is absorbing,
    [-0] is below [+0], otherwise the smaller of the two. *)
Definition min_step (lowest number : t) : t :=
  match lowest, number with
  | S754_nan, _ | _, S754_nan => S754_nan
  | S754_zero false, S754_zero true => number
  | _, _ => if SFltb number lowest then number else lowest
  end.

(** One step of [Math.max] (ECMAScript 21.3.2.24). *)
Definition max_step (highest number : t) : t :=
  match highest, number with
  | S754_nan, _ | _, S754_nan => S754_nan
  | S754_zero true, S754_zero false => number
  | _, _ => if SFltb highest number then number else highest
  end.

Definition Math_min (args : list t) : t := fold_left min_step args pInf.
Definition Math_max (args : list t) : t := fold_left max_step args nInf.

Definition is_nan (x : t) : bool :=
  match x with S754_nan => true | _ => false end.

Definition is_zero (x : t) : bool :=
  match x with S754_zero _ => true | _ => false end.

(** Finite values: zeros and finite nonzero doubles. *)
Definition is_finite (x : t) : bool :=
  match x with S754_zero _ | S754_finite _ _ _ => true | _ => false end.

(** The values of the format: mantissa and exponent in canonical form. *)
Definition is_double (x : t) : bool := valid_binary prec emax x.

(** The exponent a value of [z] binary digits and exponent is rounded to. *)
Definition fexp64 (z : Z) : Z := Z.max (z - 53) (-1074).



End F64.

#[export] Instance binary64 : Number F64.t := {|
  add := SFadd F64.prec F64.emax;
  sub := SFsub F64.prec F64.emax;
  mul := SFmul F64.prec F64.emax;
  div := SFdiv F64.prec F64.emax;
  leb := SFleb;
  ltb := SFltb;
  truthy := F64.truthy;
  Math_min := F64.Math_min;
  Math_max := F64.Math_max;
  lit := F64.of_Z
|}.

#[export] Instance binary64_metric : Metric F64.t := {|
  Math_sqrt := SFsqrt F64.prec F64.emax;
  Infinity := F64.pInf
|}.

(** ** Exact rationals *)

Module Exact.

(** Exact rationals have no infinity to start from: the call without
    arguments, which a non-empty series never makes, is given 0. *)
Definition Math_min (args : list Q) : Q :=
  match args with
  | [] => 0
  | x :: rest => fold_left Qmin rest x
  end.

Definition Math_max (args : list Q) : Q :=
  match args with
  | [] => 0
  | x :: rest => fold_left Qmax rest x
  end.

Definition ltb (a b : Q) : bool := negb (Qle_bool b a).

Definition truthy (a : Q) : bool := negb (Qeq_bool a 0).

End Exact.

#[export] Instance exact : Number Q := {|
  add := Qplus;
  sub := Qminus;
  mul := Qmult;
  div := Qdiv;
  leb := Qle_bool;
  ltb := Exact.ltb;
  truthy := Exact.truthy;
  Math_min := Exact.Math_min;
  Math_max := Exact.Math_max;
  lit := inject_Z
|}.

(** ** Data model *)

Section Model.

Context {A : Type} `{Number A}.

(** The props of [Graph] (lines 3-12); [width], [height] and [margin]
    default to 600, 400 and 50. *)
Record GraphProps : Type := {
  xData : list A;
  yData : list A;
  width : A;
  height : A;
  margin : A;
  lineColor : string;
  pointColor : string;
  gridColor : string
}.

(** The record [calculateScales] returns (line 37). *)
Record Scales : Type := {
  minX : A;
  maxX : A;
  minY : A;
  maxY : A;
  scaleX : A;
  scaleY : A
}.

(** A series is valid when both sequences have the same, positive
    length (the negation of the test on line 212). *)
Definition valid_series (p : GraphProps) : Prop :=
  length (xData p) = length (yData p) /\ length (xData p) <> 0%nat.

(** [xs[i]]. *)
Definition read (xs : list A) (i : nat) : option A := nth_error xs i.

(** *** Scale calculator (lines 28-38) *)

Definition calculateScales (p : GraphProps) : Scales :=
  let minX := Math_min (xData p) in
  let maxX := Math_max (xData p) in
  let minY := Math_min (yData p) in
  let maxY := Math_max (yData p) in
  let scaleX := ((width p - lit 2 * margin p) / ((maxX - minX) || lit 1))%js in
  let scaleY := ((height p - lit 2 * margin p) / ((maxY - minY) || lit 1))%js in
  {| minX := minX; maxX := maxX; minY := minY; maxY := maxY;
     scaleX := scaleX; scaleY := scaleY |}.

(** *** Coordinate mapper (lines 41-49) *)

(** The four functions [getCoordinateConverters] returns. *)
Record Converters : Type := {
  toCanvasX : A -> A;
  toCanvasY : A -> A;
  toDataX : A -> A;
  toDataY : A -> A
}.

Definition getCoordinateConverters (p : GraphProps) (scales : Scales)
  : Converters :=
  {| toCanvasX := fun x => (margin p + (x - minX scales) * scaleX scales)%js;
     toCanvasY := fun y =>
       (height p - margin p - (y - minY scales) * scaleY scales)%js;
     toDataX := fun canvasX =>
       (minX scales + (canvasX - margin p) / scaleX scales)%js;
     toDataY := fun canvasY =>
       (minY scales + (height p - margin p - canvasY) / scaleY scales)%js |}.

(** *** Loops and partial reads *)

Definition bind {B C : Type} (m : option B) (k : B -> option C) : option C :=
  match m with
  | Some b => k b
  | None => None
  end.

Notation "x <- m ;; k" := (bind m (fun x => k))
  (at level 61, m at next level, right associativity).

(** A loop body run on each index in turn, threading the loop state;
    it stops at the first read of a missing element. *)
Fixpoint foldM {B S : Type} (body : S -> B -> option S) (l : list B) (s : S)
  : option S :=
  match l with
  | [] => Some s
  | b :: l' => s' <- body s b ;; foldM body l' s'
  end.

Fixpoint mapM {B C : Type} (body : B -> option C) (l : list B)
  : option (list C) :=
  match l with
  | [] => Some []
  | b :: l' => c <- body b ;; cs <- mapM body l' ;; Some (c :: cs)
  end.

(** [for (let i = i0; i <= bound; i++)]: the counter values of the
    iterations that run, [fuel] of them at most. *)
Fixpoint countUpTo (fuel : nat) (i : Z) (bound : A) : list Z :=
  match fuel with
  | O => []
  | S fuel' =>
      if (lit i <=? bound)%js then i :: countUpTo fuel' (i + 1)%Z bound
      else []
  end.

(** The grid loops are bounded by [Math.min(10, _)]: the counter runs
    over 0..10 at most, so eleven iterations exhaust them (see
    [GridF64.f64_countUpTo_gridFuel] and [GridExact.exact_countUpTo_gridFuel]). *)
Definition gridFuel : nat := 11.

(** *** The drawable surface *)

Inductive Align : Type := AlignCenter | AlignRight | AlignLeft.

(** The texts drawn: [v.toFixed(2)] on lines 84 and 100, and the
    template [(x.toFixed(2), y.toFixed(2))] on line 163. *)
Inductive Text : Type :=
| Fixed2 (v : A)
| Coordinates (x y : A).

(** The calls and property writes on the 2d context, in source order. *)
Inductive DrawOp : Type :=
| clearRect (x y w h : A)
| strokeStyle (c : string)
| fillStyle (c : string)
| lineWidth (w : A)
| font (f : string)
| textAlign (a : Align)
| beginPath
| moveTo (x y : A)
| lineTo (x y : A)
| stroke
| arc (x y radius : A)          (* from angle 0 to 2 * Math.PI *)
| fill
| fillText (t : Text) (x y : A).

(** The canvas node behind [canvasRef.current]: its bounding rectangle
    and whether [getContext('2d')] gives a context. *)
Record Canvas : Type := {
  rectLeft : A;
  rectTop : A;
  context2d : bool
}.

(** *** Renderer (lines 52-168) *)

(** Data value of gridline [i] (lines 74 and 90). *)
Definition gridX (scales : Scales) (xSteps : A) (i : Z) : A :=
  (minX scales + (maxX scales - minX scales) * (lit i / xSteps))%js.

Definition gridY (scales : Scales) (ySteps : A) (i : Z) : A :=
  (minY scales + (maxY scales - minY scales) * (lit i / ySteps))%js.

(** Body of the loop on lines 73-85. *)
Definition verticalLine (p : GraphProps) (scales : Scales) (xSteps : A) (i : Z)
  : list DrawOp :=
  let x := gridX scales xSteps i in
  let canvasX := toCanvasX (getCoordinateConverters p scales) x in
  [ beginPath;
    moveTo canvasX (margin p);
    lineTo canvasX (height p - margin p)%js;
    stroke;
    textAlign AlignCenter;
    fillText (Fixed2 x) canvasX (height p - margin p + lit 20)%js ].

(** Body of the loop on lines 89-101. *)
Definition horizontalLine (p : GraphProps) (scales : Scales) (ySteps : A) (i : Z)
  : list DrawOp :=
  let y := gridY scales ySteps i in
  let canvasY := toCanvasY (getCoordinateConverters p scales) y in
  [ beginPath;
    moveTo (margin p) canvasY;
    lineTo (width p - margin p)%js canvasY;
    stroke;
    textAlign AlignRight;
    fillText (Fixed2 y) (margin p - lit 10)%js (canvasY + lit 4)%js ].

Definition xSteps (scales : Scales) : A :=
  Math_min [lit 10; (maxX scales - minX scales)%js].

Definition ySteps (scales : Scales) : A :=
  Math_min [lit 10; (maxY scales - minY scales)%js].

(** Lines 72-101. *)
Definition drawGrid (p : GraphProps) (scales : Scales) : list DrawOp :=
  flat_map (verticalLine p scales (xSteps scales))
           (countUpTo gridFuel 0 (xSteps scales))
  ++ flat_map (horizontalLine p scales (ySteps scales))
              (countUpTo gridFuel 0 (ySteps scales)).

(** Lines 104-117. *)
Definition drawAxes (p : GraphProps) : list DrawOp :=
  [ strokeStyle "#000"; lineWidth (lit 2);
    beginPath;
    moveTo (margin p) (height p - margin p)%js;
    lineTo (width p - margin p)%js (height p - margin p)%js;
    stroke;
    beginPath;
    moveTo (margin p) (margin p);
    lineTo (margin p) (height p - margin p)%js;
    stroke ].

(** Lines 124-133: one path through the points in index order. *)
Definition polylinePoint (p : GraphProps) (scales : Scales) (i : nat)
  : option DrawOp :=
  x <- read (xData p) i ;;
  y <- read (yData p) i ;;
  let canvasX := toCanvasX (getCoordinateConverters p scales) x in
  let canvasY := toCanvasY (getCoordinateConverters p scales) y in
  Some (if Nat.eqb i 0 then moveTo canvasX canvasY else lineTo canvasX canvasY).

(** Lines 138-145: a disc of radius 4 on every point. *)
Definition pointMarker (p : GraphProps) (scales : Scales) (i : nat)
  : option (list DrawOp) :=
  x <- read (xData p) i ;;
  y <- read (yData p) i ;;
  let canvasX := toCanvasX (getCoordinateConverters p scales) x in
  let canvasY := toCanvasY (getCoordinateConverters p scales) y in
  Some [ beginPath; arc canvasX canvasY (lit 4); fill ].

(** Lines 148-167: the highlight, behind its guard. *)
Definition drawHover (p : GraphProps) (scales : Scales) (hoveredPoint : option Z)
  : option (list DrawOp) :=
  match hoveredPoint with
  | None => Some []
  | Some h =>
      if ((0 <=? h)%Z && (h <? Z.of_nat (length (xData p)))%Z)%bool then
        x <- read (xData p) (Z.to_nat h) ;;
        y <- read (yData p) (Z.to_nat h) ;;
        let canvasX := toCanvasX (getCoordinateConverters p scales) x in
        let canvasY := toCanvasY (getCoordinateConverters p scales) y in
        Some [ fillStyle "#ff0000";
               beginPath; arc canvasX canvasY (lit 6); fill;
               fillStyle "#000"; font "14px Arial"; textAlign AlignLeft;
               fillText (Coordinates x y)
                        (canvasX + lit 10)%js (canvasY - lit 10)%js ]
      else Some []
  end.

(** [drawGraph]: the operations issued on the surface, [None] when an
    element that is not there was read.  Without a canvas or a context
    it returns at once (lines 53-57). *)
Definition drawGraph (p : GraphProps) (hoveredPoint : option Z)
           (canvasRef : option Canvas) : option (list DrawOp) :=
  match canvasRef with
  | None => Some []
  | Some canvas =>
      if negb (context2d canvas) then Some []
      else
        let scales := calculateScales p in
        let indices := seq 0 (length (xData p)) in
        line <- mapM (polylinePoint p scales) indices ;;
        points <- mapM (pointMarker p scales) indices ;;
        hover <- drawHover p scales hoveredPoint ;;
        Some ([ clearRect (lit 0) (lit 0) (width p) (height p);
                strokeStyle (gridColor p); lineWidth (lit 1);
                font "12px Arial"; fillStyle "#666" ]
              ++ drawGrid p scales
              ++ drawAxes p
              ++ [ strokeStyle (lineColor p); lineWidth (lit 2); beginPath ]
              ++ line ++ [ stroke ]
              ++ [ fillStyle (pointColor p) ] ++ concat points
              ++ hover)
  end.

(** *** The view (lines 207-227) *)

(** What [Graph] returns: the error message of line 213 or the canvas. *)
Inductive Element : Type :=
| ErrorMessage
| CanvasView (w h : A).

Definition Graph (p : GraphProps) : Element :=
  if (negb (Nat.eqb (length (xData p)) (length (yData p)))
      || Nat.eqb (length (xData p)) 0)%bool
  then ErrorMessage
  else CanvasView (width p) (height p).

(** [canvasRef.current] once the element is committed: the host's canvas
    node when a canvas was returned, [null] otherwise. *)
Definition attachRef (el : Element) (host : Canvas) : option Canvas :=
  match el with
  | CanvasView _ _ => Some host
  | ErrorMessage => None
  end.

(** One render: the element returned, then the effect of line 207
    running [drawGraph] against the committed ref. *)
Definition render (p : GraphProps) (hoveredPoint : option Z) (host : Canvas)
  : Element * option (list DrawOp) :=
  let el := Graph p in
  (el, drawGraph p hoveredPoint (attachRef el host)).

(** ** Hit tester (lines 171-205) *)

Context `{!Metric A}.

Record MouseEvent : Type := {
  clientX : A;
  clientY : A
}.

(** Pixel position of point [(x, y)] as lines 187-188 compute it. *)
Definition pixelX (p : GraphProps) (scales : Scales) (x : A) : A :=
  (margin p + (x - minX scales) * scaleX scales)%js.

Definition pixelY (p : GraphProps) (scales : Scales) (y : A) : A :=
  (height p - margin p - (y - minY scales) * scaleY scales)%js.

(** Lines 190-192. *)
Definition distance (mouseX mouseY canvasX canvasY : A) : A :=
  Math_sqrt (Math_pow2 (mouseX - canvasX) + Math_pow2 (mouseY - canvasY))%js.

(** Distance from the pointer to point [i]. *)
Definition pointDistance (p : GraphProps) (scales : Scales) (mouseX mouseY : A)
           (i : nat) : option A :=
  x <- read (xData p) i ;;
  y <- read (yData p) i ;;
  Some (distance mouseX mouseY (pixelX p scales x) (pixelY p scales y)).

(** Lines 194-197 on the loop state [(closestIndex, minDistance)]. *)
Definition keepCloser (st : Z * A) (i : nat) (d : A) : Z * A :=
  if ((d <? lit 20)%js && (d <? snd st)%js)%bool then (Z.of_nat i, d) else st.

(** Body of the loop on lines 186-198. *)
Definition hitStep (p : GraphProps) (scales : Scales) (mouseX mouseY : A)
           (st : Z * A) (i : nat) : option (Z * A) :=
  d <- pointDistance p scales mouseX mouseY i ;;
  Some (keepCloser st i d).

(** [handleMouseMove]: the next hover state. *)
Definition handleMouseMove (p : GraphProps) (canvasRef : option Canvas)
           (event : MouseEvent) (hoveredPoint : option Z) : option (option Z) :=
  match canvasRef with
  | None => Some hoveredPoint
  | Some canvas =>
      let mouseX := (clientX event - rectLeft canvas)%js in
      let mouseY := (clientY event - rectTop canvas)%js in
      let scales := calculateScales p in
      st <- foldM (hitStep p scales mouseX mouseY)
                  (seq 0 (length (xData p))) ((-1)%Z, Infinity) ;;
      Some (if (fst st =? -1)%Z then None else Some (fst st))
  end.

(** [handleMouseLeave] (lines 203-205). *)
Definition handleMouseLeave (hoveredPoint : option Z) : option Z := None.

(** The two pointer events and the hover state they lead to. *)
Inductive PointerEvent : Type :=
| Move (event : MouseEvent)
| Leave.

Definition onPointer (p : GraphProps) (canvasRef : option Canvas)
           (e : PointerEvent) (hoveredPoint : option Z) : option (option Z) :=
  match e with
  | Move event => handleMouseMove p canvasRef event hoveredPoint
  | Leave => Some (handleMouseLeave hoveredPoint)
  end.

End Model.

Arguments GraphProps A : clear implicits.
Arguments Scales A : clear implicits.
Arguments Converters A : clear implicits.
Arguments Canvas A : clear implicits.
Arguments DrawOp A : clear implicits.
Arguments Text A : clear implicits.
Arguments Element A : clear implicits.
Arguments MouseEvent A : clear implicits.
Arguments PointerEvent A : clear implicits.

(** ** Inputs used in the examples *)

(** A view with the default colours of lines 20-22. *)
Definition viewOf {A} (xs ys : list A) (w h m : A) : GraphProps A :=
  {| xData := xs; yData := ys; width := w; height := h; margin := m;
     lineColor := "#007acc"; pointColor := "#ff4444"; gridColor := "#e0e0e0" |}.

Definition viewConfig {A} `{Number A} (xs ys : list Z) (w h m : Z) : GraphProps A :=
  viewOf (map lit xs) (map lit ys) (lit w) (lit h) (lit m).

(** The series of [App] (lines 232-233), y = x^2. *)
Definition squaresX : list Z := [0; 1; 2; 3; 4; 5; 6; 7; 8; 9]%Z.
Definition squaresY : list Z := [0; 1; 4; 9; 16; 25; 36; 49; 64; 81]%Z.

(** [App]'s view: 800 x 500 with the default margin of 50. *)
Definition demo {A} `{Number A} : GraphProps A :=
  viewConfig squaresX squaresY 800 500 50.

(** A canvas at the origin of the viewport, with a 2d context. *)
Definition hostCanvas {A} `{Number A} : Canvas A :=
  {| rectLeft := lit 0; rectTop := lit 0; context2d := true |}.

Definition mouseAt {A} `{Number A} (x y : Z) : MouseEvent A :=
  {| clientX := lit x; clientY := lit y |}.



(** The single point (5, 5) in a view of any size. *)
Definition singlePoint {A} `{Number A} (w h m : A) : GraphProps A :=
  viewOf [lit 5] [lit 5] w h m.

(** Points 0 and 1 coincide. *)
Definition coincident {A} `{Number A} : GraphProps A :=
  viewConfig [0; 0; 1]%Z [0; 0; 1]%Z 600 400 50.


(** An X range of 2.5, in exact arithmetic. *)
Definition narrow : GraphProps Q :=
  viewOf [0; 5 # 2] [0; 1] 600 400 50.

(** The hover state is [null] or an index of the series. *)
Definition hoverInRange {A} (p : GraphProps A) (hoveredPoint : option Z) : bool :=
  match hoveredPoint with
  | None => true
  | Some i => ((0 <=? i)%Z && (i <? Z.of_nat (length (xData p)))%Z)%bool
  end.

(** ** What the scan of the hit tester maintains *)

Section ScanInvariant.

Context {A : Type} `{Number A} `{!Metric A}.
Variables (p : GraphProps A) (scales : Scales A) (mouseX mouseY : A).

Local Abbreviation dist := (pointDistance p scales mouseX mouseY).

(** None of the first [k] points is within the threshold. *)
Definition noneWithin (k : nat) : Prop :=
  forall j dj, (j < k)%nat -> dist j = Some dj -> (dj <? lit 20)%js = false.

(** Among the first [k] points, point [i] at distance [di] is within the
    threshold, none within the threshold is strictly nearer, and those of
    lower index within the threshold are strictly farther. *)
Definition nearestWithin (k i : nat) (di : A) : Prop :=
  (i < k)%nat /\ dist i = Some di /\ (di <? lit 20)%js = true /\
  forall j dj, (j < k)%nat -> dist j = Some dj -> (dj <? lit 20)%js = true ->
               (dj <? di)%js = false /\ ((j < i)%nat -> (di <? dj)%js = true).

(** The loop state [(closestIndex, minDistance)] before iteration [k]. *)
Definition scanInv (k : nat) (st : Z * A) : Prop :=
  (fst st = (-1)%Z /\ snd st = Infinity /\ noneWithin k)
  \/ (exists i, fst st = Z.of_nat i /\ nearestWithin k i (snd st)).

End ScanInvariant.

(** ** What holds of the gridlines of one axis in exact arithmetic *)

(** Between [lo] and [hi], with step count [steps]: the loop runs for the
    counter values 0, ..., floor(steps), eleven at most and exactly eleven
    for a range of 10 or more; when the range is not zero the first line is
    at [lo], consecutive lines are (hi - lo) / steps apart, and the last
    line is at [hi] when [steps] is an integer. *)
Definition gridSpec (lo hi steps : Q) (iterations : list Z) (value : Z -> Q) : Prop :=
  steps = Qmin 10 (hi - lo)
  /\ 0 <= hi - lo
  /\ iterations = map Z.of_nat (seq 0 (S (Z.to_nat (Qfloor steps))))
  /\ (length iterations <= 11)%nat
  /\ (10 <= hi - lo -> length iterations = 11%nat)
  /\ (0 < hi - lo ->
      value 0%Z == lo
      /\ (forall i : Z, value (i + 1)%Z - value i == (hi - lo) / steps)
      /\ (inject_Z (Qfloor steps) == steps -> value (Qfloor steps) == hi)).

(** ** The grid layer as described *)

Section GridLayer.

Context {A : Type} `{Number A}.
Variable p : GraphProps A.

(** Data value of gridline [i]: min + range * (i / steps) with
    steps = min(10, range). *)
Definition gridValueX (i : Z) : A :=
  let scales := calculateScales p in
  let range := (maxX scales - minX scales)%js in
  (minX scales + range * (lit i / Math_min [lit 10; range]))%js.

Definition gridValueY (i : Z) : A :=
  let scales := calculateScales p in
  let range := (maxY scales - minY scales)%js in
  (minY scales + range * (lit i / Math_min [lit 10; range]))%js.

(** Vertical gridline [i]: drawn from the top to the bottom of the plot
    at the pixel of its data value, and labelled with the value below
    the plot. *)
Definition gridlineX (i : nat) : list (DrawOp A) :=
  let scales := calculateScales p in
  let x := gridValueX (Z.of_nat i) in
  let canvasX := (margin p + (x - minX scales) * scaleX scales)%js in
  [ beginPath;
    moveTo canvasX (margin p);
    lineTo canvasX (height p - margin p)%js;
    stroke;
    textAlign AlignCenter;
    fillText (Fixed2 x) canvasX (height p - margin p + lit 20)%js ].

(** Horizontal gridline [i], labelled to the left of the plot. *)
Definition gridlineY (i : nat) : list (DrawOp A) :=
  let scales := calculateScales p in
  let y := gridValueY (Z.of_nat i) in
  let canvasY := (height p - margin p - (y - minY scales) * scaleY scales)%js in
  [ beginPath;
    moveTo (margin p) canvasY;
    lineTo (width p - margin p)%js canvasY;
    stroke;
    textAlign AlignRight;
    fillText (Fixed2 y) (margin p - lit 10)%js (canvasY + lit 4)%js ].

(** A grid of [nx] vertical gridlines followed by [ny] horizontal ones. *)
Definition gridLayer (nx ny : nat) : list (DrawOp A) :=
  flat_map gridlineX (seq 0 nx) ++ flat_map gridlineY (seq 0 ny).

End GridLayer.

(** [n] gridlines for the step count [steps]: none when 0 is not below or
    equal to [steps] (a negative or NaN step count), and otherwise
    floor(steps) + 1 of them, that is n = k + 1 with k <= steps < k + 1. *)
Definition gridCount {A} `{Number A} (steps : A) (n : nat) : Prop :=
  match n with
  | O => (lit 0 <=? steps)%js = false
  | S k => (lit (Z.of_nat k) <=? steps)%js = true
           /\ (lit (Z.of_nat k + 1) <=? steps)%js = false
  end.

(** ** Further inputs *)




(** A series whose second X value is NaN. *)
Definition nanSeries : GraphProps F64.t :=
  viewOf [lit 1; F64.NaN; lit 3] [lit 1; lit 2; lit 3] (lit 600) (lit 400) (lit 50).

(** * Properties *)

(** ** Loops and reads *)

Section Loops.

Context {B C S : Type}.

Lemma foldM_seq_inv (body : S -> nat -> option S) (Inv : nat -> S -> Prop) :
  forall len start s,
    Inv start s ->
    (forall i s0, (start <= i < start + len)%nat -> Inv i s0 ->
                  exists s', body s0 i = Some s' /\ Inv (Datatypes.S i) s') ->
    exists s', foldM body (seq start len) s = Some s' /\ Inv (start + len)%nat s'.
Proof.
  induction len as [|len IH]; intros start s Hs Hbody; simpl.
  - exists s. now rewrite Nat.add_0_r.
  - destruct (Hbody start s) as (s1 & Hs1 & Hinv1); [lia | exact Hs |].
    rewrite Hs1; simpl.
    destruct (IH (Datatypes.S start) s1 Hinv1) as (s2 & Hs2 & Hinv2).
    + intros i s0 Hi. apply Hbody. lia.
    + exists s2. split; [exact Hs2 |].
      now replace (start + Datatypes.S len)%nat with (Datatypes.S start + len)%nat by lia.
Qed.

Lemma mapM_total (body : B -> option C) (l : list B) :
  (forall b, In b l -> exists c, body b = Some c) ->
  exists cs, mapM body l = Some cs /\ length cs = length l.
Proof.
  induction l as [|b l IH]; intros Hall; simpl.
  - now exists [].
  - destruct (Hall b) as (c & Hc); [now left |].
    destruct IH as (cs & Hcs & Hlen); [intros; apply Hall; now right |].
    rewrite Hc, Hcs; simpl. exists (c :: cs). split; [reflexivity | simpl; lia].
Qed.

End Loops.

Lemma Some_inj {B : Type} (a b : B) : Some a = Some b -> a = b.
Proof. intros E. now inversion E. Qed.

Lemma read_in_range {A} (xs : list A) (i : nat) :
  (i < length xs)%nat -> exists x, read xs i = Some x.
Proof.
  intros Hi. unfold read. destruct (nth_error xs i) eqn:E; [eauto |].
  apply nth_error_None in E. lia.
Qed.

Lemma Graph_valid {A} (p : GraphProps A) :
  valid_series p -> Graph p = CanvasView (width p) (height p).
Proof.
  intros [Hlen Hpos]. unfold Graph.
  rewrite Hlen, Nat.eqb_refl; simpl.
  rewrite <- Hlen.
  destruct (Nat.eqb_spec (length (xData p)) 0); [contradiction | reflexivity].
Qed.

Lemma Graph_invalid {A} (p : GraphProps A) :
  length (xData p) <> length (yData p) \/ length (xData p) = 0%nat ->
  Graph p = ErrorMessage.
Proof.
  intros Hbad. unfold Graph.
  destruct (Nat.eqb_spec (length (xData p)) (length (yData p))) as [Heq|Hne]; simpl.
  - destruct Hbad as [Hne|H0]; [contradiction |]. now rewrite H0.
  - reflexivity.
Qed.

(** ** The precondition failure *)

(** C3: when the two sequences differ in length or are empty, the view
    returns the error message instead of the canvas, and the render
    effect issues no operation at all on the surface. *)
Theorem precondition_failure_draws_nothing {A} `{Number A}
        (p : GraphProps A) (hoveredPoint : option Z) (host : Canvas A) :
  length (xData p) <> length (yData p) \/ length (xData p) = 0%nat ->
  render p hoveredPoint host = (ErrorMessage, Some []).
Proof.
  intros Hbad. unfold render. now rewrite (Graph_invalid p Hbad).
Qed.

Lemma precondition_failure_witness :
  let p : GraphProps F64.t := viewConfig [1; 2]%Z [1]%Z 600 400 50 in
  (length (xData p) <> length (yData p) \/ length (xData p) = 0%nat)
  /\ render p None hostCanvas = (ErrorMessage, Some []).
Proof.
  intros p.
  assert (Hbad : length (xData p) <> length (yData p) \/ length (xData p) = 0%nat)
    by (left; simpl; lia).
  split; [exact Hbad |].
  exact (precondition_failure_draws_nothing p None hostCanvas Hbad).
Defined.

(** ** The hover state stays an index of the series *)

Section HoverRange.

Context {A : Type} `{Number A} `{!Metric A}.
Variable p : GraphProps A.
Hypothesis Hvalid : valid_series p.

Lemma pointDistance_total (scales : Scales A) (mouseX mouseY : A) (i : nat) :
  (i < length (xData p))%nat ->
  exists d, pointDistance p scales mouseX mouseY i = Some d.
Proof.
  intros Hi. unfold pointDistance.
  destruct (read_in_range (xData p) Hi) as (x & Hx).
  destruct (read_in_range (yData p) (i := i)) as (y & Hy);
    [destruct Hvalid; lia |].
  rewrite Hx, Hy; simpl. eauto.
Qed.

Lemma keepCloser_index (st : Z * A) (i : nat) (d : A) :
  fst (keepCloser st i d) = fst st \/ fst (keepCloser st i d) = Z.of_nat i.
Proof.
  unfold keepCloser. destruct (_ && _)%bool; simpl; auto.
Qed.

Lemma handleMouseMove_in_range (host : Canvas A) (event : MouseEvent A)
      (hoveredPoint : option Z) :
  exists h, handleMouseMove p (Some host) event hoveredPoint = Some h
            /\ hoverInRange p h = true.
Proof.
  unfold handleMouseMove.
  set (scales := calculateScales p).
  set (mouseX := (clientX event - rectLeft host)%js).
  set (mouseY := (clientY event - rectTop host)%js).
  destruct (@foldM_seq_inv _ (hitStep p scales mouseX mouseY)
              (fun k st => fst st = (-1)%Z \/ (0 <= fst st < Z.of_nat k)%Z)
              (length (xData p)) 0%nat ((-1)%Z, Infinity))
    as (st & Hst & Hinv).
  - now left.
  - intros i st Hi Hinv. unfold hitStep.
    destruct (pointDistance_total scales mouseX mouseY (i := i)) as (d & Hd);
      [lia |].
    rewrite Hd; simpl. eexists; split; [reflexivity |].
    destruct (keepCloser_index st i d) as [E|E]; rewrite E; lia.
  - rewrite Hst; simpl. eexists; split; [reflexivity |].
    destruct (Z.eqb_spec (fst st) (-1)); [reflexivity |].
    simpl in *. destruct Hinv as [E|E]; [contradiction |].
    apply andb_true_iff. split; [apply Z.leb_le | apply Z.ltb_lt]; lia.
Qed.

Lemma drawHover_total (scales : Scales A) (hoveredPoint : option Z) :
  exists ops, drawHover p scales hoveredPoint = Some ops
              /\ (hoverInRange p hoveredPoint = false -> ops = []).
Proof.
  unfold drawHover, hoverInRange.
  destruct hoveredPoint as [h|]; [| exists []; split; [reflexivity | discriminate]].
  destruct ((0 <=? h)%Z && (h <? Z.of_nat (length (xData p)))%Z)%bool eqn:Hguard;
    [| exists []; auto].
  apply andb_true_iff in Hguard. destruct Hguard as [H0 Hlt].
  apply Z.leb_le in H0. apply Z.ltb_lt in Hlt.
  assert (Hi : (Z.to_nat h < length (xData p))%nat) by lia.
  destruct (read_in_range (xData p) Hi) as (x & Hx).
  destruct (read_in_range (yData p) (i := Z.to_nat h)) as (y & Hy);
    [destruct Hvalid; lia |].
  rewrite Hx, Hy; simpl. eexists; split; [reflexivity | discriminate].
Qed.

Lemma drawGraph_total (hoveredPoint : option Z) (canvasRef : option (Canvas A)) :
  exists ops, drawGraph p hoveredPoint canvasRef = Some ops.
Proof.
  unfold drawGraph. destruct canvasRef as [canvas|]; [| eauto].
  destruct (negb (context2d canvas)); [eauto |].
  set (scales := calculateScales p).
  destruct (mapM_total (polylinePoint p scales) (seq 0 (length (xData p))))
    as (line & Hline & _).
  { intros i Hi. apply in_seq in Hi. unfold polylinePoint.
    destruct (read_in_range (xData p) (i := i)) as (x & Hx); [lia |].
    destruct (read_in_range (yData p) (i := i)) as (y & Hy);
      [destruct Hvalid; lia |].
    rewrite Hx, Hy; simpl. eauto. }
  destruct (mapM_total (pointMarker p scales) (seq 0 (length (xData p))))
    as (points & Hpoints & _).
  { intros i Hi. apply in_seq in Hi. unfold pointMarker.
    destruct (read_in_range (xData p) (i := i)) as (x & Hx); [lia |].
    destruct (read_in_range (yData p) (i := i)) as (y & Hy);
      [destruct Hvalid; lia |].
    rewrite Hx, Hy; simpl. eauto. }
  destruct (drawHover_total scales hoveredPoint) as (hover & Hhover & _).
  rewrite Hline, Hpoints, Hhover; simpl. eauto.
Qed.

End HoverRange.

(** C9: on a valid series of length N, a pointer-move or pointer-leave
    event leaves the hover state [null] or an index in [0, N); and for any
    hover state whatever, the renderer's guard keeps the highlight from
    reading outside the series: it draws nothing when the state is out of
    range, and the whole redraw reads no missing element. *)
Theorem hover_state_in_range {A : Type} `{Number A} `{!Metric A}
        (p : GraphProps A) (host : Canvas A) (e : PointerEvent A)
        (before anyHover : option Z) :
  valid_series p ->
  (exists h, onPointer p (attachRef (Graph p) host) e before = Some h
             /\ hoverInRange p h = true)
  /\ (exists ops, drawHover p (calculateScales p) anyHover = Some ops
                  /\ (hoverInRange p anyHover = false -> ops = []))
  /\ (exists ops, drawGraph p anyHover (attachRef (Graph p) host) = Some ops).
Proof.
  intros Hvalid. rewrite (Graph_valid Hvalid); simpl attachRef.
  split; [| split].
  - destruct e as [event|].
    + exact (handleMouseMove_in_range Hvalid host event before).
    + exists None. split; reflexivity.
  - now apply drawHover_total.
  - now apply drawGraph_total.
Qed.

Lemma hover_state_in_range_witness :
  let p : GraphProps F64.t := demo in
  valid_series p
  /\ (exists h, onPointer p (attachRef (Graph p) hostCanvas)
                          (Move (mouseAt 750 50)) None = Some h
                /\ hoverInRange p h = true)
  /\ hoverInRange p (Some 42%Z) = false
  /\ drawHover p (calculateScales p) (Some 42%Z) = Some [].
Proof.
  intros p.
  assert (Hvalid : valid_series p) by (split; simpl; [reflexivity | discriminate]).
  assert (Hout : hoverInRange p (Some 42%Z) = false) by reflexivity.
  destruct (hover_state_in_range hostCanvas (Move (mouseAt 750 50))
                                 None (Some 42%Z) Hvalid)
    as (Hmove & (ops & Hops & Hnone) & _).
  split; [exact Hvalid |]. split; [exact Hmove |]. split; [exact Hout |].
  rewrite Hops. f_equal. exact (Hnone Hout).
Defined.

(** ** The scan of the hit tester, over any ordered number structure *)

Section Scan.

Context {A : Type} `{Number A} `{!Metric A}.

(** What the proof uses of [<]: a strict weak order on the values below
    the threshold, all of which are below [Infinity]. *)
Hypothesis lt_irrefl : forall a : A, (a <? a)%js = false.
Hypothesis lt_trans : forall a b c : A,
    (a <? b)%js = true -> (b <? c)%js = true -> (a <? c)%js = true.
Hypothesis lt_negtrans : forall a b c : A,
    (a <? b)%js = true -> (c <? lit 20)%js = true ->
    (a <? c)%js = true \/ (c <? b)%js = true.
Hypothesis lt_Infinity : forall a : A,
    (a <? lit 20)%js = true -> (a <? Infinity)%js = true.

Variable p : GraphProps A.
Hypothesis Hvalid : valid_series p.
Variables (scales : Scales A) (mouseX mouseY : A).

Lemma hitStep_scanInv (k : nat) (st : Z * A) :
  (k < length (xData p))%nat -> scanInv p scales mouseX mouseY k st ->
  exists st', hitStep p scales mouseX mouseY st k = Some st'
              /\ scanInv p scales mouseX mouseY (S k) st'.
Proof.
  intros Hk Hinv. unfold hitStep.
  destruct (pointDistance_total Hvalid scales mouseX mouseY Hk) as (d & Hd).
  rewrite Hd; simpl. eexists; split; [reflexivity |].
  unfold keepCloser.
  destruct (d <? lit 20)%js eqn:Hd20; simpl.
  - destruct (d <? snd st)%js eqn:Hdm.
    + (* the point becomes the closest *)
      right. exists k. split; [reflexivity |]. simpl.
      split; [lia |]. split; [exact Hd |]. split; [exact Hd20 |].
      intros j dj Hj Hdj Hdj20.
      destruct (Nat.eq_dec j k) as [->|Hne].
      * rewrite Hd in Hdj. injection Hdj as <-.
        split; [apply lt_irrefl | lia].
      * destruct Hinv as [(_ & _ & Hnone) | (i & _ & _ & _ & _ & Hnear)].
        -- rewrite (Hnone j dj) in Hdj20 by (assumption || lia). discriminate.
        -- destruct (Hnear j dj) as [Hjm _]; [lia | assumption | assumption |].
           split.
           ++ destruct (dj <? d)%js eqn:E; [| reflexivity].
              rewrite (lt_trans _ _ _ E Hdm) in Hjm. discriminate.
           ++ intros _. destruct (lt_negtrans _ _ dj Hdm Hdj20) as [E|E];
                [exact E | rewrite E in Hjm; discriminate].
    + (* a closer point is kept *)
      destruct Hinv as [(_ & Hinf & _) | (i & Hi & Hlt & Hdi & Hdi20 & Hnear)].
      * rewrite Hinf, (lt_Infinity _ Hd20) in Hdm. discriminate.
      * right. exists i. split; [exact Hi |].
        split; [lia |]. split; [exact Hdi |]. split; [exact Hdi20 |].
        intros j dj Hj Hdj Hdj20.
        destruct (Nat.eq_dec j k) as [->|Hne].
        -- rewrite Hd in Hdj. injection Hdj as <-. split; [exact Hdm | lia].
        -- apply Hnear; (assumption || lia).
  - (* the point is outside the threshold *)
    destruct Hinv as [(Hc & Hinf & Hnone) | (i & Hi & Hlt & Hdi & Hdi20 & Hnear)].
    + left. split; [exact Hc |]. split; [exact Hinf |].
      intros j dj Hj Hdj.
      destruct (Nat.eq_dec j k) as [->|Hne].
      * rewrite Hd in Hdj. now injection Hdj as <-.
      * apply (Hnone j); (assumption || lia).
    + right. exists i. split; [exact Hi |].
      split; [lia |]. split; [exact Hdi |]. split; [exact Hdi20 |].
      intros j dj Hj Hdj Hdj20.
      destruct (Nat.eq_dec j k) as [->|Hne].
      * rewrite Hd in Hdj. injection Hdj as <-.
        rewrite Hd20 in Hdj20. discriminate.
      * apply Hnear; (assumption || lia).
Qed.

Lemma scan_spec :
  exists st, foldM (hitStep p scales mouseX mouseY)
                   (seq 0 (length (xData p))) ((-1)%Z, Infinity) = Some st
             /\ scanInv p scales mouseX mouseY (length (xData p)) st.
Proof.
  apply (@foldM_seq_inv _ (hitStep p scales mouseX mouseY)
                        (scanInv p scales mouseX mouseY)
                        (length (xData p)) 0%nat ((-1)%Z, Infinity)).
  - left. repeat split. intros j dj Hj. lia.
  - intros i st Hi. apply hitStep_scanInv. lia.
Qed.

End Scan.

Section HandleMouseMove.

Context {A : Type} `{Number A} `{!Metric A}.
Hypothesis lt_irrefl : forall a : A, (a <? a)%js = false.
Hypothesis lt_trans : forall a b c : A,
    (a <? b)%js = true -> (b <? c)%js = true -> (a <? c)%js = true.
Hypothesis lt_negtrans : forall a b c : A,
    (a <? b)%js = true -> (c <? lit 20)%js = true ->
    (a <? c)%js = true \/ (c <? b)%js = true.
Hypothesis lt_Infinity : forall a : A,
    (a <? lit 20)%js = true -> (a <? Infinity)%js = true.

(** The hover state [handleMouseMove] sets is [null] when no point is
    within the threshold, and otherwise the first of the nearest ones. *)
Lemma handleMouseMove_spec (p : GraphProps A) (host : Canvas A)
      (event : MouseEvent A) (before : option Z) :
  valid_series p ->
  let scales := calculateScales p in
  let mouseX := (clientX event - rectLeft host)%js in
  let mouseY := (clientY event - rectTop host)%js in
  exists h, handleMouseMove p (Some host) event before = Some h /\
    ((h = None /\ noneWithin p scales mouseX mouseY (length (xData p)))
     \/ (exists i di, h = Some (Z.of_nat i)
                      /\ nearestWithin p scales mouseX mouseY
                                       (length (xData p)) i di)).
Proof.
  intros Hvalid scales mouseX mouseY. unfold handleMouseMove.
  fold scales mouseX mouseY.
  destruct (scan_spec lt_irrefl lt_trans lt_negtrans lt_Infinity
                      Hvalid scales mouseX mouseY) as (st & Hst & Hinv).
  rewrite Hst; simpl. eexists; split; [reflexivity |].
  destruct Hinv as [(Hc & _ & Hnone) | (i & Hi & Hnear)].
  - left. rewrite Hc. simpl. now split.
  - right. exists i, (snd st). rewrite Hi.
    destruct (Z.eqb_spec (Z.of_nat i) (-1)); [lia |]. now split.
Qed.

End HandleMouseMove.

(** ** Facts about binary64 *)

Module F64Facts.

Ltac cases_compare :=
  repeat match goal with
  | |- context [Pos.compare_cont Eq ?a ?b] =>
      change (Pos.compare_cont Eq a b) with (Pos.compare a b)
  | H : context [Pos.compare_cont Eq ?a ?b] |- _ =>
      change (Pos.compare_cont Eq a b) with (Pos.compare a b) in H
  end;
  repeat match goal with
  | |- context [Z.compare ?a ?b] => destruct (Z.compare_spec a b)
  | H : context [Z.compare ?a ?b] |- _ => destruct (Z.compare_spec a b)
  | |- context [Pos.compare ?a ?b] => destruct (Pos.compare_spec a b)
  | H : context [Pos.compare ?a ?b] |- _ => destruct (Pos.compare_spec a b)
  end.

Ltac order_cases :=
  unfold SFltb, SFleb, SFeqb, SFcompare in *;
  cases_compare; simpl in *;
  try discriminate; try reflexivity; try lia; auto.

Lemma lit_1 : F64.of_Z 1 = S754_finite false 4503599627370496 (-52).
Proof. vm_compute. reflexivity. Qed.

Lemma lit_10 : F64.of_Z 10 = S754_finite false 5629499534213120 (-49).
Proof. vm_compute. reflexivity. Qed.

Lemma lit_20 : F64.of_Z 20 = S754_finite false 5629499534213120 (-48).
Proof. vm_compute. reflexivity. Qed.

(** [<] is a strict weak order away from NaN. *)

Lemma ltb_irrefl (a : F64.t) : SFltb a a = false.
Proof. destruct a as [[]|[]| |[] m e]; order_cases. Qed.

Lemma ltb_trans (a b c : F64.t) :
  SFltb a b = true -> SFltb b c = true -> SFltb a c = true.
Proof.
  destruct a as [[]|[]| |[] ma ea], b as [[]|[]| |[] mb eb],
           c as [[]|[]| |[] mc ec]; intros Hab Hbc; order_cases.
Qed.

Lemma ltb_negtrans (a b c : F64.t) :
  SFltb a b = true -> F64.is_nan c = false ->
  SFltb a c = true \/ SFltb c b = true.
Proof.
  destruct a as [[]|[]| |[] ma ea], b as [[]|[]| |[] mb eb],
           c as [[]|[]| |[] mc ec]; intros Hab Hc; simpl in Hc;
    try discriminate; order_cases.
Qed.

Lemma ltb_not_nan (a b : F64.t) : SFltb a b = true -> F64.is_nan a = false.
Proof. destruct a as [[]|[]| |[] ma ea]; try reflexivity. discriminate. Qed.


Lemma ltb_20_Infinity (a : F64.t) :
  SFltb a (F64.of_Z 20) = true -> SFltb a F64.pInf = true.
Proof.
  rewrite lit_20. destruct a as [[]|[]| |[] ma ea]; try reflexivity; discriminate.
Qed.

Lemma ltb_leb_trans (a b c : F64.t) :
  SFltb a b = true -> SFleb b c = true -> SFltb a c = true.
Proof.
  destruct a as [[]|[]| |[] ma ea], b as [[]|[]| |[] mb eb],
           c as [[]|[]| |[] mc ec]; intros Hab Hbc; order_cases.
Qed.

Lemma ltb_asym (a b : F64.t) : SFltb a b = true -> SFltb b a = false.
Proof.
  destruct a as [[]|[]| |[] ma ea], b as [[]|[]| |[] mb eb];
    intros Hab; order_cases.
Qed.

Lemma ltb_not_leb (a b : F64.t) : SFltb a b = true -> SFleb b a = false.
Proof.
  destruct a as [[]|[]| |[] ma ea], b as [[]|[]| |[] mb eb];
    intros Hab; order_cases.
Qed.

Lemma leb_25_not_ltb_20 (d : F64.t) :
  SFleb (F64.of_Z 25) d = true -> SFltb d (F64.of_Z 20) = false.
Proof.
  intros H25. apply ltb_asym.
  apply (ltb_leb_trans (F64.of_Z 20) (F64.of_Z 25) d); [| exact H25].
  vm_compute. reflexivity.
Qed.

Lemma zero_ltb_20 (s : bool) : SFltb (S754_zero s) (F64.of_Z 20) = true.
Proof. rewrite lit_20. reflexivity. Qed.

(** A finite value minus itself is [+0]. *)
Lemma sub_diag (x : F64.t) :
  F64.is_finite x = true -> SFsub F64.prec F64.emax x x = S754_zero false.
Proof.
  destruct x as [[]|[]| |s m e]; intros Hfin; try discriminate; try reflexivity.
  unfold SFsub. now rewrite Z.sub_diag.
Qed.

(** Rounding keeps the sign it is given. *)
Lemma binary_round_aux_sign (sx : bool) (mx ex : Z) (lx : location) :
  match binary_round_aux F64.prec F64.emax sx mx ex lx with
  | S754_zero s | S754_infinity s | S754_finite s _ _ => s = sx
  | S754_nan => True
  end.
Proof.
  unfold binary_round_aux.
  destruct (shr_fexp _ _ mx ex lx) as [mrs' e'].
  destruct (shr_fexp _ _ _ e' loc_Exact) as [mrs'' e''].
  destruct (shr_m mrs''); [reflexivity | | exact I].
  destruct (_ <=? _)%Z; reflexivity.
Qed.

(** A square root is never below zero. *)
Lemma sqrt_not_negative (x : F64.t) (s : bool) :
  SFltb (SFsqrt F64.prec F64.emax x) (S754_zero s) = false.
Proof.
  destruct x as [[]|[]| |[] m e]; try reflexivity.
  unfold SFsqrt.
  destruct (SFsqrt_core_binary _ _ _ e) as [[mz ez] lz].
  pose proof (binary_round_aux_sign false mz ez lz) as Hs.
  destruct (binary_round_aux _ _ false mz ez lz) as [s'|s'| |s' m' e'];
    try reflexivity; subst s'; reflexivity.
Qed.

(** A value that is neither NaN, nor below zero, nor above it, is a zero. *)
Lemma not_positive_is_zero (d : F64.t) (s s' : bool) :
  F64.is_nan d = false ->
  SFltb d (S754_zero s) = false -> SFltb (S754_zero s') d = false ->
  F64.is_zero d = true.
Proof.
  destruct d as [[]|[]| |[] m e]; intros Hnan Hneg Hpos;
    try reflexivity; try discriminate.
Qed.

(** Equal operands have a falsy difference: [+0], [-0], or [NaN] for
    two infinities. *)
Lemma eqb_finite_same (s1 s2 : bool) (m1 m2 : positive) (e1 e2 : Z) :
  SFeqb (S754_finite s1 m1 e1) (S754_finite s2 m2 e2) = true ->
  S754_finite s1 m1 e1 = S754_finite s2 m2 e2.
Proof.
  unfold SFeqb, SFcompare. destruct s1, s2; cases_compare;
    intros E; try discriminate E; now subst.
Qed.

Lemma eqb_sub_zero (a b : F64.t) :
  SFeqb a b = true -> F64.is_finite a = true ->
  F64.is_zero (SFsub F64.prec F64.emax a b) = true.
Proof.
  destruct a as [[]|[]| |[] m1 e1], b as [[]|[]| |[] m2 e2];
    intros Heq Hfin; try discriminate; try reflexivity;
    rewrite (eqb_finite_same _ _ _ _ _ _ Heq), sub_diag; reflexivity.
Qed.

Lemma eqb_sub_falsy (a b : F64.t) :
  SFeqb a b = true -> F64.truthy (SFsub F64.prec F64.emax a b) = false.
Proof.
  destruct a as [[]|[]| |[] m1 e1], b as [[]|[]| |[] m2 e2];
    intros Heq; try discriminate; try reflexivity;
    rewrite (eqb_finite_same _ _ _ _ _ _ Heq), sub_diag; reflexivity.
Qed.

(** Division by one is exact on doubles. *)

Lemma div_eucl_mul (q b : Z) : (b <> 0)%Z -> Z.div_eucl (q * b) b = (q, 0%Z).
Proof.
  intros Hb. rewrite (surjective_pairing (Z.div_eucl (q * b) b)).
  change (fst (Z.div_eucl (q * b) b)) with (Z.div (q * b) b).
  change (snd (Z.div_eucl (q * b) b)) with (Z.modulo (q * b) b).
  now rewrite Z.div_mul, Z.mod_mul.
Qed.

Lemma shr_fexp_canonical (m : positive) (e : Z) :
  canonical_mantissa F64.prec F64.emax m e = true ->
  shr_fexp F64.prec F64.emax (Z.pos m) e loc_Exact
  = ({| shr_m := Z.pos m; shr_r := false; shr_s := false |}, e).
Proof.
  intros Hcanon. apply Z.eqb_eq in Hcanon. unfold shr_fexp.
  change (Zdigits2 (Z.pos m)) with (Z.pos (digits2_pos m)).
  now rewrite Hcanon, Z.sub_diag.
Qed.

Lemma div_one (x : F64.t) :
  F64.is_double x = true -> SFdiv F64.prec F64.emax x (F64.of_Z 1) = x.
Proof.
  rewrite lit_1.
  destruct x as [[]|[]| |s m e]; intros Hvalid; try reflexivity.
  unfold F64.is_double in Hvalid.
  cbn [valid_binary] in Hvalid. unfold bounded in Hvalid.
  apply andb_true_iff in Hvalid. destruct Hvalid as [Hcanon Hbound].
  pose proof (shr_fexp_canonical m e Hcanon) as Hshr.
  unfold canonical_mantissa in Hcanon. apply Z.eqb_eq in Hcanon.
  unfold SFdiv, SFdiv_core_binary.
  change (Zdigits2 (Z.pos 4503599627370496)) with 53%Z.
  change (Zdigits2 (Z.pos m)) with (Z.pos (digits2_pos m)).
  rewrite xorb_false_r.
  set (d := Z.pos (digits2_pos m)) in *.
  unfold fexp, emin, F64.prec, F64.emax in Hcanon |- *.
  assert (Hcases : ((d = 53 /\ -1074 < e) \/ (e = -1074 /\ d <= 53))%Z) by lia.
  destruct Hcases as [[Hd He] | [He Hd]].
  - (* normal: the quotient has one digit too many and is shifted back *)
    replace (Z.min (Z.max (d + e - (53 + -52) - 53) (3 - 1024 - 53)) (e - -52))%Z
      with (e - 1)%Z by lia.
    replace (e - -52 - (e - 1))%Z with 53%Z by lia.
    rewrite Z.shiftl_mul_pow2 by lia.
    replace (Z.pos m * 2 ^ 53)%Z with (Z.pos m~0 * 4503599627370496)%Z by lia.
    rewrite div_eucl_mul by lia.
    change (new_location 4503599627370496 0) with loc_Exact.
    unfold binary_round_aux at 1. unfold shr_fexp at 1.
    change (Zdigits2 (Z.pos m~0)) with (Z.pos (Pos.succ (digits2_pos m))).
    rewrite Pos2Z.inj_succ. fold d.
    replace (fexp 53 1024 (Z.succ d + (e - 1)) - (e - 1))%Z with 1%Z
      by (unfold fexp, emin; lia).
    cbn [shr shr_record_of_loc iter_pos shr_1 orb shr_m loc_of_shr_record
             round_nearest_even].
    replace (e - 1 + 1)%Z with e by lia.
    change (shr_fexp 53 1024) with (shr_fexp F64.prec F64.emax).
    rewrite Hshr. cbn [shr_m].
    change (1024 - 53)%Z with (F64.emax - F64.prec)%Z.
    now rewrite Hbound.
  - (* subnormal: the quotient is the mantissa itself *)
    replace (Z.min (Z.max (d + e - (53 + -52) - 53) (3 - 1024 - 53)) (e - -52))%Z
      with e by lia.
    replace (e - -52 - e)%Z with 52%Z by lia.
    rewrite Z.shiftl_mul_pow2 by lia.
    change (2 ^ 52)%Z with 4503599627370496%Z.
    rewrite div_eucl_mul by lia.
    change (new_location 4503599627370496 0) with loc_Exact.
    unfold binary_round_aux.
    change (shr_fexp 53 1024) with (shr_fexp F64.prec F64.emax).
    rewrite Hshr.
    cbn [shr_m loc_of_shr_record round_nearest_even].
    rewrite Hshr. cbn [shr_m].
    change (1024 - 53)%Z with (F64.emax - F64.prec)%Z.
    now rewrite Hbound.
Qed.

(** NaN is absorbing. *)

Lemma add_nan_r (x : F64.t) : SFadd F64.prec F64.emax x S754_nan = S754_nan.
Proof. now destruct x as [[]|[]| |[] m e]. Qed.

Lemma sub_nan_r (x : F64.t) : SFsub F64.prec F64.emax x S754_nan = S754_nan.
Proof. now destruct x as [[]|[]| |[] m e]. Qed.

Lemma mul_nan_r (x : F64.t) : SFmul F64.prec F64.emax x S754_nan = S754_nan.
Proof. now destruct x as [[]|[]| |[] m e]. Qed.

End F64Facts.

(** ** The doubles are closed under rounding *)

Module F64Valid.

Local Open Scope Z_scope.

Lemma digits2_size (p : positive) : digits2_pos p = Pos.size p.
Proof. induction p; simpl; now rewrite ?IHp. Qed.

Lemma digits_log2 (p : positive) : Zdigits2 (Z.pos p) = Z.log2 (Z.pos p) + 1.
Proof.
  cbn [Zdigits2]. rewrite digits2_size.
  destruct p; cbn [Pos.size Z.log2]; lia.
Qed.

Lemma digits_nonneg (m : Z) : 0 <= m -> 0 <= Zdigits2 m.
Proof. destruct m; cbn [Zdigits2]; lia. Qed.

Lemma digits_pos (m : Z) : 0 < m -> 0 < Zdigits2 m.
Proof. destruct m; cbn [Zdigits2]; lia. Qed.

(** Adding one adds at most one digit. *)
Lemma digits_succ (m : Z) :
  0 <= m -> Zdigits2 (m + 1) = Zdigits2 m \/ Zdigits2 (m + 1) = Zdigits2 m + 1.
Proof.
  intros Hm. destruct m as [|p|p]; [now right | | lia].
  assert (Hs : Z.pos p + 1 = Z.pos (p + 1)) by lia.
  rewrite Hs, !digits_log2, <- Hs.
  destruct (Z.log2_succ_or (Z.pos p)) as [E|E]; unfold Z.succ in E; lia.
Qed.

Lemma digits_mul (p q : positive) :
  Zdigits2 (Z.pos p) + Zdigits2 (Z.pos q) - 1 <= Zdigits2 (Z.pos (p * q)).
Proof.
  rewrite !digits_log2, Pos2Z.inj_mul.
  pose proof (Z.log2_mul_below (Z.pos p) (Z.pos q)). lia.
Qed.

Lemma digits_shl (p d : positive) :
  Zdigits2 (Z.pos (Pos.iter xO p d)) = Zdigits2 (Z.pos p) + Z.pos d.
Proof.
  cbn [Zdigits2]. induction d as [|d IH] using Pos.peano_ind.
  - cbn [Pos.iter digits2_pos]. lia.
  - rewrite Pos.iter_succ. cbn [digits2_pos]. lia.
Qed.

(** One shift to the right drops one digit. *)
Lemma shr_1_digits (mrs : shr_record) :
  0 <= shr_m mrs ->
  0 <= shr_m (shr_1 mrs)
  /\ Zdigits2 (shr_m (shr_1 mrs)) = Z.max 0 (Zdigits2 (shr_m mrs) - 1).
Proof.
  destruct mrs as [m r s]. cbn [shr_m]. intros Hm.
  destruct m as [|[p|p|]|p]; cbn [shr_1 shr_m Zdigits2 digits2_pos]; lia.
Qed.

Lemma shr_iter_digits (n : positive) :
  forall mrs : shr_record,
    0 <= shr_m mrs ->
    0 <= shr_m (iter_pos shr_1 n mrs)
    /\ Zdigits2 (shr_m (iter_pos shr_1 n mrs))
       = Z.max 0 (Zdigits2 (shr_m mrs) - Z.pos n).
Proof.
  induction n as [n IH|n IH|]; intros mrs Hm; cbn [iter_pos].
  - destruct (@shr_1_digits mrs Hm) as [H1 D1].
    destruct (IH _ H1) as [H2 D2]. destruct (IH _ H2) as [H3 D3].
    split; [exact H3 |]. rewrite D3, D2, D1. lia.
  - destruct (IH _ Hm) as [H2 D2]. destruct (IH _ H2) as [H3 D3].
    split; [exact H3 |]. rewrite D3, D2. lia.
  - apply shr_1_digits. exact Hm.
Qed.

Lemma shr_record_of_loc_m (m : Z) (l : location) : shr_m (shr_record_of_loc m l) = m.
Proof. destruct l as [|[]]; reflexivity. Qed.

Lemma fexp_eq (z : Z) : fexp F64.prec F64.emax z = F64.fexp64 z.
Proof. reflexivity. Qed.

(** [shr_fexp] on a mantissa whose exponent is not above the target:
    the exponent becomes the target and the digits shrink accordingly. *)
Lemma shr_fexp_spec (m e : Z) (l : location) (mrs' : shr_record) (e' : Z) :
  0 <= m -> e <= F64.fexp64 (Zdigits2 m + e) ->
  shr_fexp F64.prec F64.emax m e l = (mrs', e') ->
  0 <= shr_m mrs'
  /\ e' = F64.fexp64 (Zdigits2 m + e)
  /\ Zdigits2 (shr_m mrs') = Z.max 0 (Zdigits2 m - (e' - e)).
Proof.
  intros Hm He. unfold shr_fexp. rewrite fexp_eq.
  set (n := F64.fexp64 (Zdigits2 m + e) - e). unfold shr.
  pose proof (@digits_nonneg m Hm) as Hd.
  destruct n as [|pn|pn] eqn:En; intros E; injection E as <- <-.
  - rewrite shr_record_of_loc_m. lia.
  - destruct (@shr_iter_digits pn (shr_record_of_loc m l)) as [H1 D1];
      [now rewrite shr_record_of_loc_m |].
    rewrite shr_record_of_loc_m in D1. lia.
  - lia.
Qed.

Lemma round_nearest_even_cases (m : Z) (l : location) :
  round_nearest_even m l = m \/ round_nearest_even m l = m + 1.
Proof.
  destruct l as [|[]]; cbn [round_nearest_even]; auto.
  destruct (Z.even m); auto.
Qed.

(** Rounding yields a valid double when the exponent is not above its
    target. *)
Lemma binary_round_aux_valid (s : bool) (m e : Z) (l : location) :
  0 <= m -> e <= F64.fexp64 (Zdigits2 m + e) ->
  F64.is_double (binary_round_aux F64.prec F64.emax s m e l) = true.
Proof.
  intros Hm He. unfold F64.is_double, binary_round_aux.
  destruct (shr_fexp F64.prec F64.emax m e l) as [mrs' e'] eqn:E1.
  destruct (@shr_fexp_spec m e l mrs' e' Hm He E1) as (Hm' & He' & Hd').
  set (m1 := round_nearest_even (shr_m mrs') (loc_of_shr_record mrs')) in *.
  assert (Hm1 : 0 <= m1)
    by (destruct (round_nearest_even_cases (shr_m mrs') (loc_of_shr_record mrs'));
        unfold m1; lia).
  assert (Hd1 : Zdigits2 m1 = Zdigits2 (shr_m mrs')
                \/ Zdigits2 m1 = Zdigits2 (shr_m mrs') + 1).
  { unfold m1.
    destruct (round_nearest_even_cases (shr_m mrs') (loc_of_shr_record mrs')) as [->| ->];
      [now left | now apply digits_succ]. }
  pose proof (@digits_nonneg m Hm) as Hd.
  unfold F64.fexp64 in *.
  assert (He1 : e' <= F64.fexp64 (Zdigits2 m1 + e')) by (unfold F64.fexp64; lia).
  destruct (shr_fexp F64.prec F64.emax m1 e' loc_Exact) as [mrs'' e''] eqn:E2.
  destruct (@shr_fexp_spec m1 e' loc_Exact mrs'' e'' Hm1 He1 E2) as (Hm'' & He'' & Hd'').
  unfold F64.fexp64 in *.
  destruct (shr_m mrs'') as [|p|p] eqn:Ep; [reflexivity | | reflexivity].
  destruct (e'' <=? F64.emax - F64.prec) eqn:Eb; [| reflexivity].
  cbn [valid_binary]. unfold bounded. rewrite Eb, andb_true_r.
  unfold canonical_mantissa. apply Z.eqb_eq. rewrite fexp_eq. unfold F64.fexp64.
  change (Z.pos (digits2_pos p)) with (Zdigits2 (Z.pos p)).
  assert (Hp : 0 < Zdigits2 (Z.pos p)) by (apply digits_pos; lia).
  lia.
Qed.

Lemma binary_round_valid (s : bool) (m : positive) (e : Z) :
  F64.is_double (binary_round F64.prec F64.emax s m e) = true.
Proof.
  unfold binary_round, shl_align. rewrite fexp_eq.
  change (Z.pos (digits2_pos m)) with (Zdigits2 (Z.pos m)).
  destruct (F64.fexp64 (Zdigits2 (Z.pos m) + e) - e) as [|d|d] eqn:Ed;
    apply binary_round_aux_valid; try lia.
  rewrite digits_shl.
  replace (Zdigits2 (Z.pos m) + Z.pos d + F64.fexp64 (Zdigits2 (Z.pos m) + e))
    with (Zdigits2 (Z.pos m) + e) by lia.
  lia.
Qed.

Lemma binary_normalize_valid (m e : Z) (szero : bool) :
  F64.is_double (binary_normalize F64.prec F64.emax m e szero) = true.
Proof. destruct m; [reflexivity | |]; apply binary_round_valid. Qed.

(** The doubles are closed under the operations of the scale. *)

Lemma of_Z_valid (z : Z) : F64.is_double (F64.of_Z z) = true.
Proof. apply binary_normalize_valid. Qed.

Lemma sub_valid (x y : F64.t) :
  F64.is_double x = true -> F64.is_double y = true ->
  F64.is_double (SFsub F64.prec F64.emax x y) = true.
Proof.
  destruct x as [[]|[]| |sx mx ex], y as [[]|[]| |sy my ey];
    intros Hx Hy; try reflexivity; try assumption.
  apply binary_normalize_valid.
Qed.

Lemma canonical_cases (m : positive) (e : Z) :
  bounded F64.prec F64.emax m e = true ->
  F64.fexp64 (Zdigits2 (Z.pos m) + e) = e.
Proof.
  unfold bounded, canonical_mantissa. intros Hb.
  apply andb_true_iff in Hb. destruct Hb as [Hc _].
  apply Z.eqb_eq in Hc. exact Hc.
Qed.

Lemma mul_valid (x y : F64.t) :
  F64.is_double x = true -> F64.is_double y = true ->
  F64.is_double (SFmul F64.prec F64.emax x y) = true.
Proof.
  destruct x as [[]|[]| |sx mx ex], y as [[]|[]| |sy my ey];
    intros Hx Hy; try reflexivity.
  unfold F64.is_double in Hx, Hy. cbn [valid_binary] in Hx, Hy. cbn [SFmul].
  apply binary_round_aux_valid; [lia |].
  pose proof (canonical_cases _ _ Hx) as Cx.
  pose proof (canonical_cases _ _ Hy) as Cy.
  pose proof (digits_mul mx my) as Hd.
  assert (0 < Zdigits2 (Z.pos mx)) by (apply digits_pos; lia).
  assert (0 < Zdigits2 (Z.pos my)) by (apply digits_pos; lia).
  unfold F64.fexp64 in *. lia.
Qed.

End F64Valid.

(** ** The hit tester in binary64 *)

Section HitTester.

Variable p : GraphProps F64.t.
Hypothesis Hvalid : valid_series p.
Variables (host : Canvas F64.t) (event : MouseEvent F64.t) (before : option Z).

Local Abbreviation scales := (calculateScales p).
Local Abbreviation mouseX := (clientX event - rectLeft host)%js.
Local Abbreviation mouseY := (clientY event - rectTop host)%js.
Local Abbreviation dist := (pointDistance p scales mouseX mouseY).

Lemma dist_index (j : nat) (dj : F64.t) :
  dist j = Some dj -> (j < length (xData p))%nat.
Proof.
  unfold pointDistance, read. intros Hd.
  apply nth_error_Some. destruct (nth_error (xData p) j); [discriminate |].
  discriminate Hd.
Qed.

Lemma dist_not_negative (j : nat) (dj : F64.t) (s : bool) :
  dist j = Some dj -> SFltb dj (S754_zero s) = false.
Proof.
  unfold pointDistance. intros Hd.
  destruct (read (xData p) j) as [x|]; [| discriminate].
  destruct (read (yData p) j) as [y|]; [| discriminate].
  unfold bind in Hd. apply Some_inj in Hd. subst dj.
  unfold distance. exact (F64Facts.sqrt_not_negative _ s).
Qed.

(** The pixel position the hit tester computes is the one the renderer
    draws the point at. *)
Lemma pixel_is_canvas (x y : F64.t) :
  pixelX p scales x = toCanvasX (getCoordinateConverters p scales) x
  /\ pixelY p scales y = toCanvasY (getCoordinateConverters p scales) y.
Proof. split; reflexivity. Qed.

(** A pointer on a point's pixel position is at distance [+0] from it. *)
Lemma dist_on_point (i : nat) (x y : F64.t) :
  read (xData p) i = Some x -> read (yData p) i = Some y ->
  F64.is_finite mouseX = true -> F64.is_finite mouseY = true ->
  pixelX p scales x = mouseX -> pixelY p scales y = mouseY ->
  dist i = Some (S754_zero false).
Proof.
  intros Hx Hy HfX HfY HpX HpY. unfold pointDistance.
  rewrite Hx, Hy. unfold bind. rewrite HpX, HpY. unfold distance.
  change (mouseX - mouseX)%js with (SFsub F64.prec F64.emax mouseX mouseX).
  change (mouseY - mouseY)%js with (SFsub F64.prec F64.emax mouseY mouseY).
  rewrite (F64Facts.sub_diag _ HfX), (F64Facts.sub_diag _ HfY).
  reflexivity.
Qed.

Lemma hit_spec :
  exists h, handleMouseMove p (Some host) event before = Some h /\
    ((h = None /\ noneWithin p scales mouseX mouseY (length (xData p)))
     \/ (exists i di, h = Some (Z.of_nat i)
                      /\ nearestWithin p scales mouseX mouseY
                                       (length (xData p)) i di)).
Proof.
  apply (@handleMouseMove_spec F64.t binary64 binary64_metric
           F64Facts.ltb_irrefl F64Facts.ltb_trans); [| | exact Hvalid].
  - intros a b c Hab Hc. apply F64Facts.ltb_negtrans; [exact Hab |].
    exact (F64Facts.ltb_not_nan _ _ Hc).
  - exact F64Facts.ltb_20_Infinity.
Qed.

(** Nothing is strictly nearer than the point the scan retains. *)
Lemma nearest_is_minimum (i : nat) (di : F64.t) :
  nearestWithin p scales mouseX mouseY (length (xData p)) i di ->
  forall j dj, dist j = Some dj -> SFltb dj di = false.
Proof.
  intros (_ & _ & Hdi20 & Hnear) j dj Hdj.
  destruct (SFltb dj di) eqn:E; [| reflexivity].
  destruct (Hnear j dj) as [Hle _];
    [exact (dist_index _ Hdj) | exact Hdj | | now rewrite <- Hle].
  exact (F64Facts.ltb_trans _ _ _ E Hdi20).
Qed.

Lemma hit_on_point (i : nat) (x y : F64.t) :
  read (xData p) i = Some x -> read (yData p) i = Some y ->
  F64.is_finite mouseX = true -> F64.is_finite mouseY = true ->
  pixelX p scales x = mouseX -> pixelY p scales y = mouseY ->
  (forall j dj, (j < i)%nat -> dist j = Some dj -> F64.is_zero dj = false) ->
  handleMouseMove p (Some host) event before = Some (Some (Z.of_nat i)).
Proof.
  intros Hx Hy HfX HfY HpX HpY Hlower.
  pose proof (dist_on_point i Hx Hy HfX HfY HpX HpY) as Hdi.
  pose proof (dist_index _ Hdi) as Hi.
  destruct hit_spec as (h & Hh & [(-> & Hnone) | (k & dk & -> & Hnear)]).
  - specialize (Hnone i _ Hi Hdi).
    change (SFltb (S754_zero false) (F64.of_Z 20) = false) in Hnone.
    rewrite F64Facts.zero_ltb_20 in Hnone. discriminate.
  - rewrite Hh. do 3 f_equal.
    pose proof (nearest_is_minimum Hnear) as Hmin.
    destruct Hnear as (Hk & Hdk & Hdk20 & Hnear).
    destruct (Hnear i _ Hi Hdi (F64Facts.zero_ltb_20 false)) as [Hik Hfirst].
    destruct (Nat.lt_trichotomy k i) as [Hlt | [-> | Hgt]]; [| reflexivity |].
    + (* an earlier point retained: it would be at distance zero *)
      pose proof (Hlower k dk Hlt Hdk) as Hnz.
      rewrite (F64Facts.not_positive_is_zero dk false false) in Hnz.
      * discriminate Hnz.
      * exact (F64Facts.ltb_not_nan _ _ Hdk20).
      * exact (dist_not_negative k false Hdk).
      * exact Hik.
    + (* a later point retained: it would be below zero *)
      pose proof (Hfirst Hgt) as Hneg.
      change (SFltb dk (S754_zero false) = true) in Hneg.
      rewrite (dist_not_negative k false Hdk) in Hneg.
      discriminate Hneg.
Qed.

End HitTester.

(** C2 (as amended): on a valid series, in binary64, the hit tester
    computes the Euclidean pixel distance from the pointer to every point
    and sets the hover state to an index of minimum distance when that
    minimum is strictly below 20, and to [null] when no distance is below
    20.  A pointer exactly on point [i]'s pixel position (distance 0) gives
    [i] when no point of lower index is at distance 0 as well; a pointer at
    25 pixels or more from every point gives [null]. *)
Theorem hit_test_nearest_within_threshold
        (p : GraphProps F64.t) (host : Canvas F64.t) (event : MouseEvent F64.t)
        (before : option Z) :
  valid_series p ->
  let scales := calculateScales p in
  let mouseX := (clientX event - rectLeft host)%js in
  let mouseY := (clientY event - rectTop host)%js in
  let dist := pointDistance p scales mouseX mouseY in
  exists h, handleMouseMove p (Some host) event before = Some h /\
    match h with
    | Some c =>
        exists i d, c = Z.of_nat i /\ dist i = Some d /\ (d <? lit 20)%js = true
                    /\ forall j dj, dist j = Some dj -> (dj <? d)%js = false
    | None => forall j dj, dist j = Some dj -> (dj <? lit 20)%js = false
    end
    /\ (forall i x y,
           read (xData p) i = Some x -> read (yData p) i = Some y ->
           F64.is_finite mouseX = true -> F64.is_finite mouseY = true ->
           pixelX p scales x = mouseX -> pixelY p scales y = mouseY ->
           (forall j dj, (j < i)%nat -> dist j = Some dj -> F64.is_zero dj = false) ->
           h = Some (Z.of_nat i))
    /\ ((forall j dj, dist j = Some dj -> (lit 25 <=? dj)%js = true) -> h = None).
Proof.
  intros Hvalid scales mouseX mouseY dist.
  destruct (hit_spec Hvalid host event before)
    as (h & Hh & [(-> & Hnone) | (k & dk & -> & Hnear)]).
  - exists None. split; [exact Hh |]. split; [| split].
    + intros j dj Hdj. exact (Hnone j dj (dist_index p host event j Hdj) Hdj).
    + intros i x y Hx Hy HfX HfY HpX HpY Hlower.
      rewrite (hit_on_point Hvalid host event before Hx Hy HfX HfY HpX HpY Hlower)
        in Hh.
      discriminate Hh.
    + reflexivity.
  - exists (Some (Z.of_nat k)). split; [exact Hh |]. split; [| split].
    + exists k, dk. split; [reflexivity |].
      pose proof (nearest_is_minimum host event Hnear) as Hmin.
      destruct Hnear as (_ & Hdk & Hdk20 & _). auto.
    + intros i x y Hx Hy HfX HfY HpX HpY Hlower.
      rewrite (hit_on_point Hvalid host event before Hx Hy HfX HfY HpX HpY Hlower)
        in Hh.
      now apply Some_inj in Hh.
    + intros Hfar. destruct Hnear as (_ & Hdk & Hdk20 & _).
      change (SFltb dk (F64.of_Z 20) = true) in Hdk20.
      rewrite (F64Facts.leb_25_not_ltb_20 _ (Hfar k dk Hdk)) in Hdk20.
      discriminate Hdk20.
Qed.

Lemma hit_test_nearest_within_threshold_witness :
  let p : GraphProps F64.t := demo in
  valid_series p
  /\ handleMouseMove p (Some hostCanvas) (mouseAt 750 50) None = Some (Some 9%Z)
  /\ handleMouseMove p (Some hostCanvas) (mouseAt 750 75) None = Some None.
Proof.
  intros p.
  assert (Hvalid : valid_series p) by (split; simpl; [reflexivity | discriminate]).
  split; [exact Hvalid |]. split.
  - (* on point 9, drawn at (750, 50) *)
    destruct (hit_test_nearest_within_threshold hostCanvas (mouseAt 750 50) None Hvalid)
      as (h & Hh & _ & Hon & _).
    rewrite Hh. f_equal.
    apply (Hon 9%nat (lit 9) (lit 81)); [vm_compute; reflexivity .. |].
    intros j dj Hj Hd.
    do 9 (destruct j as [|j];
          [vm_compute in Hd; apply Some_inj in Hd; subst dj; reflexivity |]).
    lia.
  - (* 25 pixels below point 9, farther from the others *)
    destruct (hit_test_nearest_within_threshold hostCanvas (mouseAt 750 75) None Hvalid)
      as (h & Hh & _ & _ & Hfar).
    rewrite Hh. f_equal. apply Hfar.
    intros j dj Hd.
    pose proof (dist_index p hostCanvas (mouseAt 750 75) j Hd) as Hj.
    change (length (xData p)) with 10%nat in Hj.
    do 10 (destruct j as [|j];
           [vm_compute in Hd; apply Some_inj in Hd; subst dj; vm_compute; reflexivity |]).
    lia.
Defined.

(** C2, the clause as stated: a pointer exactly on the pixel position of
    point [i] does not always give [i].  In [coincident] points 0 and 1
    are both drawn at (50, 350); the pointer there gives 0, not 1. *)
Lemma hit_test_on_point_counterexample :
  ~ (forall (p : GraphProps F64.t) (host : Canvas F64.t) (event : MouseEvent F64.t)
            (before : option Z) (i : nat) (x y : F64.t),
        valid_series p ->
        read (xData p) i = Some x -> read (yData p) i = Some y ->
        (clientX event - rectLeft host)%js = pixelX p (calculateScales p) x ->
        (clientY event - rectTop host)%js = pixelY p (calculateScales p) y ->
        handleMouseMove p (Some host) event before = Some (Some (Z.of_nat i))).
Proof.
  intros Hclaim.
  specialize (Hclaim coincident hostCanvas (mouseAt 50 350) None 1%nat
                     (F64.of_Z 0) (F64.of_Z 0)).
  assert (Hvalid : valid_series (coincident (A := F64.t)))
    by (split; simpl; [reflexivity | discriminate]).
  specialize (Hclaim Hvalid eq_refl eq_refl).
  assert (Hx : (clientX (mouseAt (A := F64.t) 50 350) - rectLeft hostCanvas)%js
               = pixelX coincident (calculateScales coincident) (F64.of_Z 0))
    by (vm_compute; reflexivity).
  assert (Hy : (clientY (mouseAt (A := F64.t) 50 350) - rectTop hostCanvas)%js
               = pixelY coincident (calculateScales coincident) (F64.of_Z 0))
    by (vm_compute; reflexivity).
  specialize (Hclaim Hx Hy). vm_compute in Hclaim. discriminate Hclaim.
Qed.



(** ** Degenerate ranges in binary64 *)

Section DegenerateRange.

Variable p : GraphProps F64.t.

Local Abbreviation scales := (calculateScales p).

Lemma denominator_of_equal (hi lo : F64.t) :
  SFeqb hi lo = true -> ((hi - lo) || lit 1)%js = lit 1.
Proof.
  intros Heq. unfold orElse.
  change (truthy (hi - lo)%js) with (F64.truthy (SFsub F64.prec F64.emax hi lo)).
  now rewrite (F64Facts.eqb_sub_falsy _ _ Heq).
Qed.

Lemma scaleX_degenerate :
  SFeqb (maxX scales) (minX scales) = true ->
  scaleX scales = ((width p - lit 2 * margin p) / lit 1)%js.
Proof.
  intros Heq.
  change (scaleX scales)
    with ((width p - lit 2 * margin p) / ((maxX scales - minX scales) || lit 1))%js.
  now rewrite (denominator_of_equal _ _ Heq).
Qed.

Lemma scaleY_degenerate :
  SFeqb (maxY scales) (minY scales) = true ->
  scaleY scales = ((height p - lit 2 * margin p) / lit 1)%js.
Proof.
  intros Heq.
  change (scaleY scales)
    with ((height p - lit 2 * margin p) / ((maxY scales - minY scales) || lit 1))%js.
  now rewrite (denominator_of_equal _ _ Heq).
Qed.

(** With a zero range the step count is a zero, the loop runs once, and
    the gridline value is [NaN]. *)
Lemma zero_range_steps (lo range : F64.t) :
  F64.is_zero range = true ->
  F64.is_zero (Math_min [lit 10; range]) = true
  /\ countUpTo gridFuel 0 (Math_min [lit 10; range]) = [0%Z]
  /\ (lit 0 / Math_min [lit 10; range])%js = F64.NaN
  /\ (lo + range * (lit 0 / Math_min [lit 10; range]))%js = F64.NaN.
Proof.
  destruct range as [sr| | |]; try discriminate. intros _.
  split; [now destruct sr |]. split; [now destruct sr; vm_compute |].
  assert (Hdiv : SFdiv F64.prec F64.emax (F64.of_Z 0)
                       (F64.Math_min [F64.of_Z 10; S754_zero sr]) = S754_nan)
    by (now destruct sr; vm_compute).
  split; [exact Hdiv |].
  change (SFadd F64.prec F64.emax lo
            (SFmul F64.prec F64.emax (S754_zero sr)
               (SFdiv F64.prec F64.emax (F64.of_Z 0)
                  (F64.Math_min [F64.of_Z 10; S754_zero sr]))) = S754_nan).
  rewrite Hdiv, F64Facts.mul_nan_r. apply F64Facts.add_nan_r.
Qed.

Lemma toCanvasX_NaN : toCanvasX (getCoordinateConverters p scales) F64.NaN = F64.NaN.
Proof. cbn [toCanvasX getCoordinateConverters]. apply F64Facts.add_nan_r. Qed.

Lemma toCanvasY_NaN : toCanvasY (getCoordinateConverters p scales) F64.NaN = F64.NaN.
Proof. cbn [toCanvasY getCoordinateConverters]. apply F64Facts.sub_nan_r. Qed.

End DegenerateRange.

(** The difference width - 2 margin of doubles is a double, and dividing
    it by one gives it back. *)
Lemma size_over_one (size m : F64.t) :
  F64.is_double size = true -> F64.is_double m = true ->
  ((size - lit 2 * m) / lit 1)%js = (size - lit 2 * m)%js.
Proof.
  intros Hsize Hm. apply F64Facts.div_one.
  apply F64Valid.sub_valid; [exact Hsize |].
  apply F64Valid.mul_valid; [apply F64Valid.of_Z_valid | exact Hm].
Qed.

Lemma scaleX_of_equal (p : GraphProps F64.t) :
  F64.is_double (width p) = true -> F64.is_double (margin p) = true ->
  SFeqb (maxX (calculateScales p)) (minX (calculateScales p)) = true ->
  scaleX (calculateScales p) = (width p - lit 2 * margin p)%js.
Proof.
  intros Hw Hm Heq.
  etransitivity; [exact (scaleX_degenerate p Heq) | exact (@size_over_one _ _ Hw Hm)].
Qed.

Lemma scaleY_of_equal (p : GraphProps F64.t) :
  F64.is_double (height p) = true -> F64.is_double (margin p) = true ->
  SFeqb (maxY (calculateScales p)) (minY (calculateScales p)) = true ->
  scaleY (calculateScales p) = (height p - lit 2 * margin p)%js.
Proof.
  intros Hh Hm Heq.
  etransitivity; [exact (scaleY_degenerate p Heq) | exact (@size_over_one _ _ Hh Hm)].
Qed.

(** C6: in binary64, with width, height and margin any doubles, when
    the maximum and minimum on an axis are equal the denominator of the
    scale is replaced by 1, no division by zero occurs, and the scale is
    width - 2 margin (resp. height - 2 margin); [calculateScales] is
    total, no error arises. *)
Theorem degenerate_range_scale (p : GraphProps F64.t) :
  F64.is_double (width p) = true ->
  F64.is_double (height p) = true ->
  F64.is_double (margin p) = true ->
  let scales := calculateScales p in
  (SFeqb (maxX scales) (minX scales) = true ->
     ((maxX scales - minX scales) || lit 1)%js = lit 1
     /\ scaleX scales = ((width p - lit 2 * margin p) / lit 1)%js
     /\ scaleX scales = (width p - lit 2 * margin p)%js)
  /\ (SFeqb (maxY scales) (minY scales) = true ->
     ((maxY scales - minY scales) || lit 1)%js = lit 1
     /\ scaleY scales = ((height p - lit 2 * margin p) / lit 1)%js
     /\ scaleY scales = (height p - lit 2 * margin p)%js).
Proof.
  intros Hw Hh Hm scales. split; intros Heq.
  - split; [exact (denominator_of_equal _ _ Heq) |].
    split; [exact (scaleX_degenerate p Heq) | exact (scaleX_of_equal p Hw Hm Heq)].
  - split; [exact (denominator_of_equal _ _ Heq) |].
    split; [exact (scaleY_degenerate p Heq) | exact (scaleY_of_equal p Hh Hm Heq)].
Qed.

Lemma degenerate_range_scale_witness :
  let p : GraphProps F64.t := viewConfig [1; 2; 3]%Z [7; 7; 7]%Z 600 400 50 in
  let q : GraphProps F64.t := viewConfig [4; 4]%Z [1; 2]%Z 600 400 50 in
  F64.is_double (lit 600) = true
  /\ F64.is_double (lit 400) = true
  /\ F64.is_double (lit 50) = true
  /\ SFeqb (maxY (calculateScales p)) (minY (calculateScales p)) = true
  /\ scaleY (calculateScales p) = (height p - lit 2 * margin p)%js
  /\ scaleY (calculateScales p) = lit 300
  /\ SFeqb (maxX (calculateScales q)) (minX (calculateScales q)) = true
  /\ scaleX (calculateScales q) = (width q - lit 2 * margin q)%js
  /\ scaleX (calculateScales q) = lit 500.
Proof.
  intros p q.
  assert (Hw : F64.is_double (lit 600) = true) by (vm_compute; reflexivity).
  assert (Hh : F64.is_double (lit 400) = true) by (vm_compute; reflexivity).
  assert (Hm : F64.is_double (lit 50) = true) by (vm_compute; reflexivity).
  assert (HeqY : SFeqb (maxY (calculateScales p)) (minY (calculateScales p)) = true)
    by (vm_compute; reflexivity).
  assert (HeqX : SFeqb (maxX (calculateScales q)) (minX (calculateScales q)) = true)
    by (vm_compute; reflexivity).
  repeat (split; [assumption |]).
  split; [exact (proj2 (proj2 (proj2 (@degenerate_range_scale p Hw Hh Hm) HeqY))) |].
  split; [vm_compute; reflexivity |]. split; [exact HeqX |].
  split; [exact (proj2 (proj2 (proj1 (@degenerate_range_scale q Hw Hh Hm) HeqX))) |].
  vm_compute; reflexivity.
Defined.

(** C5 (as amended): for the single point X = [5], Y = [5], in binary64
    and in a view of any size, both ranges are [+0], both denominators are
    replaced by 1, so nothing is divided by zero, and the scales are
    width - 2 margin and height - 2 margin: 500 and 300 in the default
    view, not 1. *)
Theorem single_point_scales (w h m : F64.t) :
  F64.is_double w = true -> F64.is_double h = true -> F64.is_double m = true ->
  let p := singlePoint w h m in
  let scales := calculateScales p in
  (maxX scales - minX scales)%js = S754_zero false
  /\ (maxY scales - minY scales)%js = S754_zero false
  /\ ((maxX scales - minX scales) || lit 1)%js = lit 1
  /\ ((maxY scales - minY scales) || lit 1)%js = lit 1
  /\ scaleX scales = (w - lit 2 * m)%js
  /\ scaleY scales = (h - lit 2 * m)%js
  /\ scaleX (calculateScales (singlePoint (A := F64.t) (lit 600) (lit 400) (lit 50)))
     = lit 500
  /\ scaleY (calculateScales (singlePoint (A := F64.t) (lit 600) (lit 400) (lit 50)))
     = lit 300.
Proof.
  intros Hw Hh Hm p scales.
  assert (HeqX : SFeqb (maxX scales) (minX scales) = true) by (vm_compute; reflexivity).
  assert (HeqY : SFeqb (maxY scales) (minY scales) = true) by (vm_compute; reflexivity).
  pose proof (denominator_of_equal _ _ HeqX) as HdX.
  pose proof (denominator_of_equal _ _ HeqY) as HdY.
  pose proof (scaleX_of_equal p Hw Hm HeqX) as HsX.
  pose proof (scaleY_of_equal p Hh Hm HeqY) as HsY.
  repeat split; try assumption; vm_compute; reflexivity.
Qed.

Lemma single_point_scales_witness :
  F64.is_double (lit 600) = true
  /\ F64.is_double (lit 400) = true
  /\ F64.is_double (lit 50) = true
  /\ scaleX (calculateScales (singlePoint (A := F64.t) (lit 600) (lit 400) (lit 50)))
     = (lit 600 - lit 2 * lit 50)%js.
Proof.
  assert (Hw : F64.is_double (lit 600) = true) by (vm_compute; reflexivity).
  assert (Hh : F64.is_double (lit 400) = true) by (vm_compute; reflexivity).
  assert (Hm : F64.is_double (lit 50) = true) by (vm_compute; reflexivity).
  repeat (split; [assumption |]).
  destruct (@single_point_scales _ _ _ Hw Hh Hm) as (_ & _ & _ & _ & HsX & _).
  exact HsX.
Defined.

(** C5, as stated: in the default view the scales for X = [5], Y = [5]
    are 500 and 300, neither of which is 1. *)
Lemma single_point_scales_counterexample :
  let scales := calculateScales (singlePoint (A := F64.t) (lit 600) (lit 400) (lit 50)) in
  ~ (scaleX scales = lit 1 /\ scaleY scales = lit 1)
  /\ SFeqb (scaleX scales) (lit 1) = false
  /\ SFeqb (scaleY scales) (lit 1) = false.
Proof.
  intros scales. split; [| split; vm_compute; reflexivity].
  intros [HX _]. vm_compute in HX. discriminate HX.
Qed.

(** ** The coordinate mapping in exact arithmetic *)

Module ExactFacts.





End ExactFacts.

(** ** Round trips in binary64 *)

Module F64RoundTrip.

Local Abbreviation fadd := (SFadd F64.prec F64.emax).
Local Abbreviation fsub := (SFsub F64.prec F64.emax).
Local Abbreviation fmul := (SFmul F64.prec F64.emax).
Local Abbreviation fdiv := (SFdiv F64.prec F64.emax).

(** [==] on numbers that are not NaN. *)

Lemma eqb_refl (x : F64.t) : F64.is_nan x = false -> SFeqb x x = true.
Proof. destruct x as [[]|[]| |[] m e]; intros Hx; try discriminate; F64Facts.order_cases. Qed.


Lemma eqb_finite_l (a b : F64.t) :
  SFeqb a b = true -> F64.is_finite b = true -> F64.is_finite a = true.
Proof.
  destruct a as [[]|[]| |[] ma ea], b as [[]|[]| |[] mb eb]; intros Hab Hb;
    try reflexivity; discriminate.
Qed.

(** Zeros are neutral for [+] and [-] and absorbing for [*] and [/]. *)

Lemma add_zero_r (a z : F64.t) :
  F64.is_zero z = true -> F64.is_nan a = false -> SFeqb (fadd a z) a = true.
Proof.
  destruct z as [sz| | |]; try discriminate. intros _ Ha.
  destruct a as [[]|[]| |sa ma ea], sz; try discriminate; try reflexivity;
    cbn [SFadd]; apply eqb_refl; reflexivity.
Qed.

Lemma sub_zero_r (a z : F64.t) :
  F64.is_zero z = true -> F64.is_nan a = false -> SFeqb (fsub a z) a = true.
Proof.
  destruct z as [sz| | |]; try discriminate. intros _ Ha.
  destruct a as [[]|[]| |sa ma ea], sz; try discriminate; try reflexivity;
    cbn [SFsub]; apply eqb_refl; reflexivity.
Qed.

Lemma mul_zero_l (z s : F64.t) :
  F64.is_zero z = true -> F64.is_finite s = true -> F64.is_zero (fmul z s) = true.
Proof.
  destruct z as [sz| | |], s as [ss|ss| |ss ms es]; intros Hz Hs;
    try discriminate; reflexivity.
Qed.



Lemma finite_not_nan (x : F64.t) : F64.is_finite x = true -> F64.is_nan x = false.
Proof. destruct x; intros Hx; try discriminate; reflexivity. Qed.

(** A value equal to the lower bound is sent to the edge of the plot. *)

Lemma pixel_add_at_min (m x lo s : F64.t) :
  SFeqb x lo = true -> F64.is_finite lo = true -> F64.is_finite s = true ->
  F64.is_nan m = false ->
  SFeqb (fadd m (fmul (fsub x lo) s)) m = true.
Proof.
  intros Heq Hlo Hs Hm. apply add_zero_r; [| exact Hm].
  apply mul_zero_l; [| exact Hs].
  apply F64Facts.eqb_sub_zero; [exact Heq | exact (eqb_finite_l _ _ Heq Hlo)].
Qed.

Lemma pixel_sub_at_min (hm y lo s : F64.t) :
  SFeqb y lo = true -> F64.is_finite lo = true -> F64.is_finite s = true ->
  F64.is_nan hm = false ->
  SFeqb (fsub hm (fmul (fsub y lo) s)) hm = true.
Proof.
  intros Heq Hlo Hs Hm. apply sub_zero_r; [| exact Hm].
  apply mul_zero_l; [| exact Hs].
  apply F64Facts.eqb_sub_zero; [exact Heq | exact (eqb_finite_l _ _ Heq Hlo)].
Qed.

(** A pixel equal to the edge of the plot is sent to the lower bound. *)



(** With a scale that is a zero, the pixel offset is a zero or NaN, and
    its quotient by the scale is NaN. *)





(** With an infinite scale, the pixel offset is infinite or NaN, and its
    quotient by the scale is NaN. *)






(** The round trips with a scale that is not a finite non-zero number. *)



End F64RoundTrip.

Section OriginF64.

Variable p : GraphProps F64.t.

Local Abbreviation scales := (calculateScales p).
Local Abbreviation conv := (getCoordinateConverters p scales).

Lemma toCanvasX_at_min (x : F64.t) :
  SFeqb x (minX scales) = true ->
  F64.is_finite (minX scales) = true -> F64.is_finite (scaleX scales) = true ->
  F64.is_nan (margin p) = false ->
  SFeqb (toCanvasX conv x) (margin p) = true.
Proof. intros Heq Hlo Hs Hm. exact (F64RoundTrip.pixel_add_at_min _ _ _ _ Heq Hlo Hs Hm). Qed.

Lemma toCanvasY_at_min (y : F64.t) :
  SFeqb y (minY scales) = true ->
  F64.is_finite (minY scales) = true -> F64.is_finite (scaleY scales) = true ->
  F64.is_nan (height p - margin p)%js = false ->
  SFeqb (toCanvasY conv y) (height p - margin p)%js = true.
Proof. intros Heq Hlo Hs Hm. exact (F64RoundTrip.pixel_sub_at_min _ _ _ _ Heq Hlo Hs Hm). Qed.



End OriginF64.




(** ** The view of [App] *)



(** ** The grid loops *)

(** A loop whose test fails at counter [i + n] runs [n] times at most,
    and does so with any fuel from [n] on. *)
Lemma countUpTo_stops {A : Type} `{Number A} (bound : A) :
  forall (n fuel : nat) (i : Z),
    (lit (i + Z.of_nat n) <=? bound)%js = false ->
    (length (countUpTo fuel i bound) <= n)%nat
    /\ ((n <= fuel)%nat -> countUpTo fuel i bound = countUpTo n i bound).
Proof.
  induction n as [|n IH]; intros fuel i Hstop.
  - rewrite Z.add_0_r in Hstop.
    destruct fuel; simpl; [| rewrite Hstop]; split; auto.
  - destruct fuel as [|fuel]; simpl; [split; [lia | lia] |].
    destruct (lit i <=? bound)%js; [| split; [simpl; lia | reflexivity]].
    destruct (IH fuel (i + 1)%Z) as [Hlen Heq].
    + now replace (i + 1 + Z.of_nat n)%Z with (i + Z.of_nat (S n))%Z by lia.
    + split; [simpl; lia |]. intros Hfuel. f_equal. apply Heq. lia.
Qed.

Module GridF64.

Lemma steps_first : F64.min_step F64.pInf (F64.of_Z 10) = F64.of_Z 10.
Proof. vm_compute. reflexivity. Qed.

(** [Math.min(10, r)] is never 11 or more. *)
Lemma f64_steps_below_11 (r : F64.t) :
  SFleb (F64.of_Z 11) (F64.Math_min [F64.of_Z 10; r]) = false.
Proof.
  unfold F64.Math_min. cbn [fold_left]. rewrite steps_first.
  assert (H10 : SFleb (F64.of_Z 11) (F64.of_Z 10) = false)
    by (vm_compute; reflexivity).
  assert (Hlt : SFltb r (F64.of_Z 10) = true -> SFleb (F64.of_Z 11) r = false).
  { intros Hr. apply F64Facts.ltb_not_leb.
    apply (F64Facts.ltb_trans r (F64.of_Z 10) (F64.of_Z 11) Hr).
    vm_compute. reflexivity. }
  rewrite F64Facts.lit_10 in *.
  destruct r as [[]|[]| |[] m e]; cbn [F64.min_step];
    try reflexivity;
    match goal with
    | |- context [SFltb ?x ?y] =>
        destruct (SFltb x y); [exact (Hlt eq_refl) | exact H10]
    end.
Qed.

Lemma f64_countUpTo_gridFuel (r : F64.t) (fuel : nat) :
  (length (countUpTo fuel 0 (Math_min [lit 10; r])) <= 11)%nat
  /\ ((gridFuel <= fuel)%nat ->
      countUpTo fuel 0 (Math_min [lit 10; r])
      = countUpTo gridFuel 0 (Math_min [lit 10; r])).
Proof.
  apply (countUpTo_stops (Math_min [lit 10; r]) 11 fuel 0).
  exact (f64_steps_below_11 r).
Qed.

(** A range of 10 or more gives 10 steps, hence the counter values 0..10. *)
Lemma f64_wide_range (r : F64.t) :
  SFleb (F64.of_Z 10) r = true ->
  countUpTo gridFuel 0 (Math_min [lit 10; r])
  = [0; 1; 2; 3; 4; 5; 6; 7; 8; 9; 10]%Z.
Proof.
  intros Hwide.
  assert (Hmin : F64.Math_min [F64.of_Z 10; r] = F64.of_Z 10).
  { unfold F64.Math_min. cbn [fold_left]. rewrite steps_first.
    assert (Hnlt : SFltb r (F64.of_Z 10) = false).
    { destruct (SFltb r (F64.of_Z 10)) eqn:E; [| reflexivity].
      rewrite (F64Facts.ltb_not_leb _ _ E) in Hwide. discriminate Hwide. }
    rewrite F64Facts.lit_10 in *.
    destruct r as [[]|[]| |[] m e]; cbn [F64.min_step];
      try discriminate Hwide; try reflexivity; now rewrite Hnlt. }
  change (Math_min [lit 10; r]) with (F64.Math_min [F64.of_Z 10; r]).
  rewrite Hmin. vm_compute. reflexivity.
Qed.

End GridF64.

Module GridExact.

Lemma exact_steps_below_11 (r : Q) : Qle_bool 11 (Qmin 10 r) = false.
Proof.
  destruct (Qle_bool 11 (Qmin 10 r)) eqn:E; [| reflexivity].
  apply Qle_bool_iff in E.
  pose proof (Q.le_min_l 10 r) as H10.
  exfalso. apply (Qle_not_lt _ _ (Qle_trans _ _ _ E H10)). reflexivity.
Qed.

Lemma exact_countUpTo_gridFuel (r : Q) (fuel : nat) :
  (length (countUpTo fuel 0 (Math_min [lit 10; r])) <= 11)%nat
  /\ ((gridFuel <= fuel)%nat ->
      countUpTo fuel 0 (Math_min [lit 10; r])
      = countUpTo gridFuel 0 (Math_min [lit 10; r])).
Proof.
  apply (countUpTo_stops (Math_min [lit 10; r]) 11 fuel 0).
  exact (exact_steps_below_11 r).
Qed.

(** The loop test against the floor of the bound. *)
Lemma leb_floor (i : Z) (steps : Q) :
  Qle_bool (inject_Z i) steps = (i <=? Qfloor steps)%Z.
Proof.
  destruct (Z.leb_spec i (Qfloor steps)) as [Hle|Hgt].
  - apply Qle_bool_iff.
    apply Qle_trans with (inject_Z (Qfloor steps)); [| apply Qfloor_le].
    now rewrite <- Zle_Qle.
  - destruct (Qle_bool (inject_Z i) steps) eqn:E; [| reflexivity].
    apply Qle_bool_iff in E. apply Qfloor_resp_le in E.
    rewrite Qfloor_Z in E. lia.
Qed.

Lemma countUpTo_floor (steps : Q) :
  forall (fuel : nat) (i : Z),
    countUpTo fuel i steps
    = map (fun k => (i + Z.of_nat k)%Z)
          (seq 0 (Nat.min fuel (Z.to_nat (Qfloor steps + 1 - i)))).
Proof.
  induction fuel as [|fuel IH]; intros i; [reflexivity |].
  cbn [countUpTo]. change (lit i <=? steps)%js with (Qle_bool (inject_Z i) steps).
  rewrite leb_floor.
  destruct (Z.leb_spec i (Qfloor steps)) as [Hle|Hgt].
  - rewrite IH.
    replace (Z.to_nat (Qfloor steps + 1 - i))
      with (S (Z.to_nat (Qfloor steps + 1 - (i + 1)))) by lia.
    cbn [Nat.min seq map]. rewrite Z.add_0_r. f_equal.
    rewrite <- seq_shift, map_map. apply map_ext. intros k. lia.
  - now replace (Z.to_nat (Qfloor steps + 1 - i)) with 0%nat by lia.
Qed.

(** Minimum and maximum of a non-empty sequence are in order. *)
Lemma fold_min_le (rest : list Q) : forall x, fold_left Qmin rest x <= x.
Proof.
  induction rest as [|a rest IH]; intros x; simpl; [apply Qle_refl |].
  apply Qle_trans with (Qmin x a); [apply IH | apply Q.le_min_l].
Qed.

Lemma fold_max_ge (rest : list Q) : forall x, x <= fold_left Qmax rest x.
Proof.
  induction rest as [|a rest IH]; intros x; simpl; [apply Qle_refl |].
  apply Qle_trans with (Qmax x a); [apply Q.le_max_l | apply IH].
Qed.

Lemma range_nonneg (xs : list Q) :
  xs <> [] -> 0 <= Math_max xs - Math_min xs.
Proof.
  destruct xs as [|x rest]; [congruence | intros _].
  cbn [Math_max Math_min exact Exact.Math_max Exact.Math_min].
  pose proof (fold_min_le rest x). pose proof (fold_max_ge rest x).
  apply (Qplus_le_l _ _ (fold_left Qmin rest x)). ring_simplify.
  eapply Qle_trans; eassumption.
Qed.

End GridExact.

Lemma gridSpec_axis (lo hi : Q) :
  0 <= hi - lo ->
  gridSpec lo hi (Qmin 10 (hi - lo))
           (countUpTo gridFuel 0 (Qmin 10 (hi - lo)))
           (fun i => lo + (hi - lo) * (inject_Z i / Qmin 10 (hi - lo))).
Proof.
  intros Hrange. set (steps := Qmin 10 (hi - lo)).
  assert (Hlow : (0 <= Qfloor steps)%Z).
  { change 0%Z with (Qfloor 0). apply Qfloor_resp_le.
    apply Q.min_glb; [discriminate | exact Hrange]. }
  assert (Hhigh : (Qfloor steps <= 10)%Z).
  { change 10%Z with (Qfloor 10). apply Qfloor_resp_le. apply Q.le_min_l. }
  assert (Hiter : countUpTo gridFuel 0 steps
                  = map Z.of_nat (seq 0 (S (Z.to_nat (Qfloor steps))))).
  { rewrite GridExact.countUpTo_floor.
    replace (Nat.min gridFuel (Z.to_nat (Qfloor steps + 1 - 0)))
      with (S (Z.to_nat (Qfloor steps))) by (unfold gridFuel; lia).
    apply map_ext. intros k. lia. }
  split; [reflexivity |]. split; [exact Hrange |]. split; [exact Hiter |].
  rewrite Hiter, length_map, length_seq.
  split; [lia |]. split.
  - intros Hwide.
    assert (Hsteps : steps == 10) by (apply Q.min_l; exact Hwide).
    rewrite (Qfloor_comp _ _ Hsteps). reflexivity.
  - intros Hpos.
    assert (Hnz : ~ steps == 0).
    { intros E. apply (Qlt_irrefl 0). rewrite <- E at 2.
      apply Q.min_glb_lt; [reflexivity | exact Hpos]. }
    split; [field; exact Hnz |]. split.
    + intros i. rewrite inject_Z_plus. field. exact Hnz.
    + intros Hint. rewrite Hint. field. exact Hnz.
Qed.

(** * Further properties of the code *)

(** ** The bounding box in exact arithmetic *)

Module MappingExact.

Lemma exact_min_lower (rest : list Q) :
  forall a x, In x rest -> fold_left Qmin rest a <= x.
Proof.
  induction rest as [|b rest IH]; intros a x Hin; [contradiction |].
  cbn [fold_left]. destruct Hin as [<- | Hin].
  - apply Qle_trans with (Qmin a b); [apply GridExact.fold_min_le | apply Q.le_min_r].
  - now apply IH.
Qed.

Lemma exact_max_upper (rest : list Q) :
  forall a x, In x rest -> x <= fold_left Qmax rest a.
Proof.
  induction rest as [|b rest IH]; intros a x Hin; [contradiction |].
  cbn [fold_left]. destruct Hin as [<- | Hin].
  - apply Qle_trans with (Qmax a b); [apply Q.le_max_r | apply GridExact.fold_max_ge].
  - now apply IH.
Qed.

Lemma exact_min_attained (rest : list Q) :
  forall a, exists x, In x (a :: rest) /\ x == fold_left Qmin rest a.
Proof.
  induction rest as [|b rest IH]; intros a; cbn [fold_left].
  - exists a. split; [now left | reflexivity].
  - destruct (IH (Qmin a b)) as (x & [Hx | Hx] & Heq).
    + destruct (Q.min_spec a b) as [[_ E] | [_ E]].
      * exists a. split; [now left |]. now rewrite <- Heq, <- Hx, E.
      * exists b. split; [right; now left |]. now rewrite <- Heq, <- Hx, E.
    + exists x. split; [right; now right | exact Heq].
Qed.

Lemma exact_max_attained (rest : list Q) :
  forall a, exists x, In x (a :: rest) /\ x == fold_left Qmax rest a.
Proof.
  induction rest as [|b rest IH]; intros a; cbn [fold_left].
  - exists a. split; [now left | reflexivity].
  - destruct (IH (Qmax a b)) as (x & [Hx | Hx] & Heq).
    + destruct (Q.max_spec a b) as [[_ E] | [_ E]].
      * exists b. split; [right; now left |]. now rewrite <- Heq, <- Hx, E.
      * exists a. split; [now left |]. now rewrite <- Heq, <- Hx, E.
    + exists x. split; [right; now right | exact Heq].
Qed.

Lemma exact_bounds (xs : list Q) (x : Q) :
  In x xs -> Math_min xs <= x /\ x <= Math_max xs.
Proof.
  destruct xs as [|a rest]; [contradiction |]. intros [<- | Hin];
    cbn [Math_min Math_max exact Exact.Math_min Exact.Math_max].
  - split; [apply GridExact.fold_min_le | apply GridExact.fold_max_ge].
  - split; [now apply exact_min_lower | now apply exact_max_upper].
Qed.


(** What the denominator [(hi - lo) || 1] is. *)
End MappingExact.

Lemma read_In {A : Type} (xs : list A) (i : nat) (x : A) :
  read xs i = Some x -> In x xs.
Proof. unfold read. apply nth_error_In. Qed.

(** X1 (calculateScales, lines 29-32), exact arithmetic: the bounds that
    [calculateScales] returns enclose every point of the series, and
    each bound is the value of some point: the box is the smallest one
    that holds the series. *)
Theorem exact_bounding_box (p : GraphProps Q) (i : nat) (x y : Q) :
  read (xData p) i = Some x -> read (yData p) i = Some y ->
  let scales := calculateScales p in
  (minX scales <= x /\ x <= maxX scales)
  /\ (minY scales <= y /\ y <= maxY scales)
  /\ (exists x0, In x0 (xData p) /\ x0 == minX scales)
  /\ (exists x1, In x1 (xData p) /\ x1 == maxX scales)
  /\ (exists y0, In y0 (yData p) /\ y0 == minY scales)
  /\ (exists y1, In y1 (yData p) /\ y1 == maxY scales).
Proof.
  intros Hx Hy scales.
  pose proof (read_In _ _ Hx) as HinX. pose proof (read_In _ _ Hy) as HinY.
  split; [exact (MappingExact.exact_bounds _ _ HinX) |].
  split; [exact (MappingExact.exact_bounds _ _ HinY) |].
  unfold scales, calculateScales; cbn [minX maxX minY maxY].
  destruct (xData p) as [|a xs]; [contradiction |].
  destruct (yData p) as [|b ys]; [contradiction |].
  repeat split.
  - apply MappingExact.exact_min_attained.
  - apply MappingExact.exact_max_attained.
  - apply MappingExact.exact_min_attained.
  - apply MappingExact.exact_max_attained.
Qed.

Lemma exact_bounding_box_witness :
  let scales := calculateScales (demo (A := Q)) in
  (minX scales <= 3 /\ 3 <= maxX scales)
  /\ (minY scales <= 9 /\ 9 <= maxY scales)
  /\ (exists x0, In x0 (xData (demo (A := Q))) /\ x0 == minX scales)
  /\ (exists x1, In x1 (xData (demo (A := Q))) /\ x1 == maxX scales)
  /\ (exists y0, In y0 (yData (demo (A := Q))) /\ y0 == minY scales)
  /\ (exists y1, In y1 (yData (demo (A := Q))) /\ y1 == maxY scales).
Proof.
  apply (@exact_bounding_box demo 3 3 9); reflexivity.
Defined.

(** ** The bounding box in binary64 *)

Module F64Bounds.

Lemma f64_ltb_leb (a b : F64.t) : SFltb a b = true -> SFleb a b = true.
Proof.
  destruct a as [[]|[]| |[] ma ea], b as [[]|[]| |[] mb eb];
    intros H; F64Facts.order_cases.
Qed.

Lemma f64_leb_refl (a : F64.t) : F64.is_nan a = false -> SFleb a a = true.
Proof.
  destruct a as [[]|[]| |[] ma ea]; intros H; try discriminate;
    F64Facts.order_cases.
Qed.

Lemma f64_leb_trans (a b c : F64.t) :
  SFleb a b = true -> SFleb b c = true -> SFleb a c = true.
Proof.
  destruct a as [[]|[]| |[] ma ea], b as [[]|[]| |[] mb eb],
           c as [[]|[]| |[] mc ec]; intros Hab Hbc; F64Facts.order_cases.
Qed.

Lemma f64_nlt_leb (a b : F64.t) :
  F64.is_nan a = false -> F64.is_nan b = false ->
  SFltb a b = false -> SFleb b a = true.
Proof.
  destruct a as [[]|[]| |[] ma ea], b as [[]|[]| |[] mb eb];
    intros Ha Hb H; try discriminate; F64Facts.order_cases.
Qed.

Lemma f64_leb_not_nan (a b : F64.t) :
  SFleb a b = true -> F64.is_nan a = false /\ F64.is_nan b = false.
Proof.
  destruct a as [[]|[]| |[] ma ea], b as [[]|[]| |[] mb eb];
    intros H; try discriminate; split; reflexivity.
Qed.

Lemma f64_leb_pInf (x : F64.t) : SFleb F64.pInf x = true -> x = F64.pInf.
Proof. destruct x as [[]|[]| |[] m e]; intros H; try discriminate; reflexivity. Qed.

Lemma f64_leb_nInf (x : F64.t) : SFleb x F64.nInf = true -> x = F64.nInf.
Proof. destruct x as [[]|[]| |[] m e]; intros H; try discriminate; reflexivity. Qed.

(** One step of [Math.min] away from NaN: the result is one of the two
    and is below both. *)
Lemma min_step_spec (acc x : F64.t) :
  F64.is_nan acc = false -> F64.is_nan x = false ->
  (F64.min_step acc x = acc \/ F64.min_step acc x = x)
  /\ SFleb (F64.min_step acc x) acc = true
  /\ SFleb (F64.min_step acc x) x = true.
Proof.
  intros Ha Hx.
  assert (Hif : (F64.min_step acc x = if SFltb x acc then x else acc)
                \/ (acc = S754_zero false /\ x = S754_zero true
                    /\ F64.min_step acc x = x)).
  { destruct acc as [[]|[]| |[] ma ea], x as [[]|[]| |[] mx ex];
      try discriminate; (now left) || (now right). }
  destruct Hif as [-> | (-> & -> & ->)]; [| repeat split; auto].
  destruct (SFltb x acc) eqn:E.
  - split; [now right |]. split; [now apply f64_ltb_leb | now apply f64_leb_refl].
  - split; [now left |]. split; [now apply f64_leb_refl | now apply f64_nlt_leb].
Qed.

Lemma max_step_spec (acc x : F64.t) :
  F64.is_nan acc = false -> F64.is_nan x = false ->
  (F64.max_step acc x = acc \/ F64.max_step acc x = x)
  /\ SFleb acc (F64.max_step acc x) = true
  /\ SFleb x (F64.max_step acc x) = true.
Proof.
  intros Ha Hx.
  assert (Hif : (F64.max_step acc x = if SFltb acc x then x else acc)
                \/ (acc = S754_zero true /\ x = S754_zero false
                    /\ F64.max_step acc x = x)).
  { destruct acc as [[]|[]| |[] ma ea], x as [[]|[]| |[] mx ex];
      try discriminate; (now left) || (now right). }
  destruct Hif as [-> | (-> & -> & ->)]; [| repeat split; auto].
  destruct (SFltb acc x) eqn:E.
  - split; [now right |]. split; [now apply f64_ltb_leb | now apply f64_leb_refl].
  - split; [now left |]. split; [now apply f64_leb_refl | now apply f64_nlt_leb].
Qed.

Lemma fold_min_spec (xs : list F64.t) :
  forall acc,
    F64.is_nan acc = false -> Forall (fun x => F64.is_nan x = false) xs ->
    let r := fold_left F64.min_step xs acc in
    SFleb r acc = true
    /\ (forall x, In x xs -> SFleb r x = true)
    /\ (r = acc \/ In r xs).
Proof.
  induction xs as [|a xs IH]; intros acc Hacc Hall; cbn [fold_left].
  - split; [now apply f64_leb_refl |]. split; [contradiction | now left].
  - inversion Hall as [|? ? Ha Hxs]; subst.
    destruct (min_step_spec acc a Hacc Ha) as (Hsel & Hlacc & Hla).
    destruct (f64_leb_not_nan _ _ Hlacc) as [Hm _].
    destruct (IH (F64.min_step acc a) Hm Hxs) as (Hr & Hlow & Hin).
    split; [exact (f64_leb_trans _ _ _ Hr Hlacc) |]. split.
    + intros x [<- | Hx]; [exact (f64_leb_trans _ _ _ Hr Hla) | now apply Hlow].
    + destruct Hin as [-> | Hin]; [| right; now right].
      destruct Hsel as [-> | ->]; [now left | right; now left].
Qed.

Lemma fold_max_spec (xs : list F64.t) :
  forall acc,
    F64.is_nan acc = false -> Forall (fun x => F64.is_nan x = false) xs ->
    let r := fold_left F64.max_step xs acc in
    SFleb acc r = true
    /\ (forall x, In x xs -> SFleb x r = true)
    /\ (r = acc \/ In r xs).
Proof.
  induction xs as [|a xs IH]; intros acc Hacc Hall; cbn [fold_left].
  - split; [now apply f64_leb_refl |]. split; [contradiction | now left].
  - inversion Hall as [|? ? Ha Hxs]; subst.
    destruct (max_step_spec acc a Hacc Ha) as (Hsel & Hlacc & Hla).
    destruct (f64_leb_not_nan _ _ Hlacc) as [_ Hm].
    destruct (IH (F64.max_step acc a) Hm Hxs) as (Hr & Hlow & Hin).
    split; [exact (f64_leb_trans _ _ _ Hlacc Hr) |]. split.
    + intros x [<- | Hx]; [exact (f64_leb_trans _ _ _ Hla Hr) | now apply Hlow].
    + destruct Hin as [-> | Hin]; [| right; now right].
      destruct Hsel as [-> | ->]; [now left | right; now left].
Qed.

(** [Math.min] and [Math.max] of a NaN-free sequence bound it, and are
    among its elements when there are any. *)
Lemma f64_min_max_bounds (xs : list F64.t) :
  Forall (fun x => F64.is_nan x = false) xs ->
  (forall x, In x xs ->
             SFleb (F64.Math_min xs) x = true /\ SFleb x (F64.Math_max xs) = true)
  /\ (xs <> [] -> In (F64.Math_min xs) xs /\ In (F64.Math_max xs) xs).
Proof.
  intros Hall. unfold F64.Math_min, F64.Math_max.
  destruct (@fold_min_spec xs F64.pInf eq_refl Hall) as (_ & Hlow & Hmin).
  destruct (@fold_max_spec xs F64.nInf eq_refl Hall) as (_ & Hhigh & Hmax).
  split; [intros x Hx; split; [now apply Hlow | now apply Hhigh] |].
  intros Hne. destruct xs as [|a xs]; [congruence |]. split.
  - destruct Hmin as [E | Hin]; [| exact Hin].
    pose proof (Hlow a (or_introl eq_refl)) as Ha. rewrite E in Ha |- *.
    left. now apply f64_leb_pInf.
  - destruct Hmax as [E | Hin]; [| exact Hin].
    pose proof (Hhigh a (or_introl eq_refl)) as Ha. rewrite E in Ha |- *.
    left. now apply f64_leb_nInf.
Qed.

(** NaN is absorbing. *)
Lemma fold_min_nan (xs : list F64.t) : fold_left F64.min_step xs S754_nan = S754_nan.
Proof. induction xs as [|a xs IH]; [reflexivity | exact IH]. Qed.

Lemma fold_max_nan (xs : list F64.t) : fold_left F64.max_step xs S754_nan = S754_nan.
Proof. induction xs as [|a xs IH]; [reflexivity | exact IH]. Qed.

Lemma min_step_nan_r (acc : F64.t) : F64.min_step acc S754_nan = S754_nan.
Proof. now destruct acc as [[]|[]| |[] m e]. Qed.

Lemma max_step_nan_r (acc : F64.t) : F64.max_step acc S754_nan = S754_nan.
Proof. now destruct acc as [[]|[]| |[] m e]. Qed.

Lemma f64_min_max_nan (xs : list F64.t) :
  In S754_nan xs -> F64.Math_min xs = S754_nan /\ F64.Math_max xs = S754_nan.
Proof.
  unfold F64.Math_min, F64.Math_max. generalize F64.pInf, F64.nInf.
  induction xs as [|a xs IH]; intros lo hi Hin; [contradiction |].
  cbn [fold_left]. destruct Hin as [-> | Hin]; [| now apply IH].
  now rewrite min_step_nan_r, max_step_nan_r, fold_min_nan, fold_max_nan.
Qed.

End F64Bounds.

(** X6 (calculateScales, lines 29-32), binary64: for a series without
    NaN, [Math.min] and [Math.max] give bounds that enclose every value
    (in the order of [<=] on doubles), and for a non-empty series each
    bound is one of the values. *)
Theorem f64_bounding_box (p : GraphProps F64.t) :
  Forall (fun x => F64.is_nan x = false) (xData p) ->
  Forall (fun y => F64.is_nan y = false) (yData p) ->
  let scales := calculateScales p in
  (forall x, In x (xData p) ->
             (minX scales <=? x)%js = true /\ (x <=? maxX scales)%js = true)
  /\ (forall y, In y (yData p) ->
                (minY scales <=? y)%js = true /\ (y <=? maxY scales)%js = true)
  /\ (xData p <> [] -> In (minX scales) (xData p) /\ In (maxX scales) (xData p))
  /\ (yData p <> [] -> In (minY scales) (yData p) /\ In (maxY scales) (yData p)).
Proof.
  intros HX HY scales.
  destruct (F64Bounds.f64_min_max_bounds HX) as [HbX HinX].
  destruct (F64Bounds.f64_min_max_bounds HY) as [HbY HinY].
  split; [exact HbX |]. split; [exact HbY |]. split; [exact HinX | exact HinY].
Qed.

Lemma f64_bounding_box_witness :
  let scales := calculateScales (demo (A := F64.t)) in
  (forall x, In x (xData (demo (A := F64.t))) ->
             (minX scales <=? x)%js = true /\ (x <=? maxX scales)%js = true)
  /\ (forall y, In y (yData (demo (A := F64.t))) ->
                (minY scales <=? y)%js = true /\ (y <=? maxY scales)%js = true)
  /\ (xData (demo (A := F64.t)) <> [] ->
      In (minX scales) (xData demo) /\ In (maxX scales) (xData demo))
  /\ (yData (demo (A := F64.t)) <> [] ->
      In (minY scales) (yData demo) /\ In (maxY scales) (yData demo)).
Proof.
  apply (@f64_bounding_box demo);
    repeat (constructor; [vm_compute; reflexivity |]); constructor.
Defined.

Section NaNData.

Variable p : GraphProps F64.t.

Local Abbreviation scales := (calculateScales p).
Local Abbreviation conv := (getCoordinateConverters p scales).

Lemma nan_pixelX (x : F64.t) :
  minX scales = S754_nan -> pixelX p scales x = S754_nan.
Proof.
  intros Hmin. unfold pixelX. rewrite Hmin.
  change (SFadd F64.prec F64.emax (margin p)
            (SFmul F64.prec F64.emax (SFsub F64.prec F64.emax x S754_nan)
                   (scaleX scales)) = S754_nan).
  rewrite F64Facts.sub_nan_r. apply F64Facts.add_nan_r.
Qed.

Lemma nan_pixelY (y : F64.t) :
  minY scales = S754_nan -> pixelY p scales y = S754_nan.
Proof.
  intros Hmin. unfold pixelY. rewrite Hmin.
  change (SFsub F64.prec F64.emax
            (SFsub F64.prec F64.emax (height p) (margin p))
            (SFmul F64.prec F64.emax (SFsub F64.prec F64.emax y S754_nan)
                   (scaleY scales)) = S754_nan).
  rewrite F64Facts.sub_nan_r. apply F64Facts.sub_nan_r.
Qed.

Lemma nan_distance_x (mouseX mouseY cy : F64.t) :
  distance mouseX mouseY S754_nan cy = S754_nan.
Proof.
  unfold distance, Math_pow2.
  change (SFsqrt F64.prec F64.emax
            (SFadd F64.prec F64.emax
               (SFmul F64.prec F64.emax
                  (SFsub F64.prec F64.emax mouseX S754_nan)
                  (SFsub F64.prec F64.emax mouseX S754_nan))
               (Math_pow2 (mouseY - cy)%js)) = S754_nan).
  now rewrite F64Facts.sub_nan_r.
Qed.

Lemma nan_distance_y (mouseX mouseY cx : F64.t) :
  distance mouseX mouseY cx S754_nan = S754_nan.
Proof.
  unfold distance.
  change (SFsqrt F64.prec F64.emax
            (SFadd F64.prec F64.emax (Math_pow2 (mouseX - cx)%js)
               (SFmul F64.prec F64.emax
                  (SFsub F64.prec F64.emax mouseY S754_nan)
                  (SFsub F64.prec F64.emax mouseY S754_nan))) = S754_nan).
  rewrite F64Facts.sub_nan_r.
  change (SFmul F64.prec F64.emax S754_nan S754_nan) with (S754_nan).
  now rewrite F64Facts.add_nan_r.
Qed.

Lemma nan_pointDistance (mouseX mouseY : F64.t) (i : nat) (d : F64.t) :
  minX scales = S754_nan \/ minY scales = S754_nan ->
  pointDistance p scales mouseX mouseY i = Some d -> d = S754_nan.
Proof.
  intros Hnan. unfold pointDistance.
  destruct (read (xData p) i) as [x|]; [| discriminate].
  destruct (read (yData p) i) as [y|]; [| discriminate].
  unfold bind. intros Hd. apply Some_inj in Hd. subst d.
  destruct Hnan as [Hmin | Hmin].
  - rewrite (nan_pixelX x Hmin). apply nan_distance_x.
  - rewrite (nan_pixelY y Hmin). apply nan_distance_y.
Qed.

End NaNData.

(** X7 (calculateScales, lines 29-35, and getCoordinateConverters, lines
    44-45), binary64: one NaN among the X values makes minX and maxX
    NaN; the range is then NaN, which is falsy, so the denominator of
    scaleX is 1; and [toCanvasX] sends every value, NaN or not, to the
    pixel NaN.  The same holds for the Y values. *)
Theorem nan_poisons_axis (p : GraphProps F64.t) :
  let scales := calculateScales p in
  let conv := getCoordinateConverters p scales in
  (In F64.NaN (xData p) ->
   minX scales = F64.NaN /\ maxX scales = F64.NaN
   /\ ((maxX scales - minX scales) || lit 1)%js = lit 1
   /\ forall x, toCanvasX conv x = F64.NaN)
  /\ (In F64.NaN (yData p) ->
      minY scales = F64.NaN /\ maxY scales = F64.NaN
      /\ ((maxY scales - minY scales) || lit 1)%js = lit 1
      /\ forall y, toCanvasY conv y = F64.NaN).
Proof.
  intros scales conv. split; intros Hin.
  - destruct (F64Bounds.f64_min_max_nan _ Hin) as [Hmin Hmax].
    assert (HminX : minX scales = F64.NaN) by exact Hmin.
    assert (HmaxX : maxX scales = F64.NaN) by exact Hmax.
    split; [exact HminX |]. split; [exact HmaxX |].
    split; [now rewrite HminX, HmaxX |].
    intros x. exact (nan_pixelX p x HminX).
  - destruct (F64Bounds.f64_min_max_nan _ Hin) as [Hmin Hmax].
    assert (HminY : minY scales = F64.NaN) by exact Hmin.
    assert (HmaxY : maxY scales = F64.NaN) by exact Hmax.
    split; [exact HminY |]. split; [exact HmaxY |].
    split; [now rewrite HminY, HmaxY |].
    intros y. exact (nan_pixelY p y HminY).
Qed.

Lemma nan_poisons_axis_witness :
  let scales := calculateScales nanSeries in
  let conv := getCoordinateConverters nanSeries scales in
  minX scales = F64.NaN /\ maxX scales = F64.NaN
  /\ ((maxX scales - minX scales) || lit 1)%js = lit 1
  /\ forall x, toCanvasX conv x = F64.NaN.
Proof.
  apply (proj1 (nan_poisons_axis nanSeries)).
  right. left. reflexivity.
Defined.

(** X8 (handleMouseMove, lines 171-201), binary64: for a valid series
    with a NaN among its X or its Y values, the hit tester sets the
    hover state to [null] for every pointer position, every canvas
    offset and every previous state: every distance is NaN, and
    [distance < 20] is false. *)
Theorem nan_disables_hover (p : GraphProps F64.t) (host : Canvas F64.t)
        (event : MouseEvent F64.t) (before : option Z) :
  valid_series p ->
  In F64.NaN (xData p) \/ In F64.NaN (yData p) ->
  handleMouseMove p (Some host) event before = Some None.
Proof.
  intros Hvalid Hin.
  assert (Hnan : minX (calculateScales p) = S754_nan
                 \/ minY (calculateScales p) = S754_nan).
  { destruct Hin as [Hin | Hin]; [left | right];
      exact (proj1 (F64Bounds.f64_min_max_nan _ Hin)). }
  destruct (hit_spec Hvalid host event before)
    as (h & Hh & [(-> & _) | (i & di & -> & (_ & Hdi & Hdi20 & _))]);
    [exact Hh |].
  rewrite (nan_pointDistance p _ _ _ Hnan Hdi) in Hdi20. discriminate Hdi20.
Qed.

Lemma nan_disables_hover_witness :
  valid_series nanSeries
  /\ handleMouseMove nanSeries (Some hostCanvas) (mouseAt 50 350) (Some 2%Z)
     = Some None.
Proof.
  assert (Hvalid : valid_series nanSeries) by (split; [reflexivity | discriminate]).
  split; [exact Hvalid |].
  apply (@nan_disables_hover nanSeries hostCanvas (mouseAt 50 350) (Some 2%Z) Hvalid).
  left. right. left. reflexivity.
Defined.

(** ** The lower bounds and the edges of the plot in binary64 *)

Module F64Edge.

(** A sequence whose minimum is not NaN holds no NaN. *)
Lemma min_not_nan (xs : list F64.t) :
  F64.is_nan (F64.Math_min xs) = false ->
  Forall (fun x => F64.is_nan x = false) xs.
Proof.
  intros Hmin. apply Forall_forall. intros x Hin.
  destruct x as [s|s| |s m e]; try reflexivity.
  rewrite (proj1 (F64Bounds.f64_min_max_nan _ Hin)) in Hmin. discriminate Hmin.
Qed.

(** A sequence whose minimum is finite has elements, the minimum among
    them, and no NaN. *)
Lemma finite_min_attained (xs : list F64.t) :
  F64.is_finite (F64.Math_min xs) = true ->
  Forall (fun x => F64.is_nan x = false) xs /\ In (F64.Math_min xs) xs.
Proof.
  intros Hfin.
  assert (Hall : Forall (fun x => F64.is_nan x = false) xs)
    by (apply min_not_nan; now apply F64RoundTrip.finite_not_nan).
  split; [exact Hall |].
  apply (proj2 (F64Bounds.f64_min_max_bounds Hall)).
  intros E. rewrite E in Hfin. discriminate Hfin.
Qed.




End F64Edge.

(** X2 (calculateScales, lines 29-35, and getCoordinateConverters, lines
    44-45), binary64: when minX and the X scale are finite and the margin
    is a number, minX is one of the X values and every value equal to it
    is sent by [toCanvasX] to the left edge of the plot, the pixel
    [margin]; when minY and the Y scale are finite and height - margin is
    a number, minY is one of the Y values and every value equal to it is
    sent by [toCanvasY] to the bottom edge, the pixel [height - margin].
    Both hold whatever the rounding of the scale: the offset from the
    lower bound is a zero. *)
Theorem minimum_on_plot_edge (p : GraphProps F64.t) :
  let scales := calculateScales p in
  let conv := getCoordinateConverters p scales in
  (F64.is_finite (minX scales) = true ->
   F64.is_finite (scaleX scales) = true ->
   F64.is_nan (margin p) = false ->
   In (minX scales) (xData p)
   /\ forall x, SFeqb x (minX scales) = true ->
                SFeqb (toCanvasX conv x) (margin p) = true)
  /\ (F64.is_finite (minY scales) = true ->
      F64.is_finite (scaleY scales) = true ->
      F64.is_nan (height p - margin p)%js = false ->
      In (minY scales) (yData p)
      /\ forall y, SFeqb y (minY scales) = true ->
                   SFeqb (toCanvasY conv y) (height p - margin p)%js = true).
Proof.
  intros scales conv. split; intros Hlo Hs Hm.
  - split; [exact (proj2 (F64Edge.finite_min_attained _ Hlo)) |].
    intros x Heq. now apply toCanvasX_at_min.
  - split; [exact (proj2 (F64Edge.finite_min_attained _ Hlo)) |].
    intros y Heq. now apply toCanvasY_at_min.
Qed.

Lemma minimum_on_plot_edge_witness :
  let p : GraphProps F64.t := viewConfig squaresX squaresY 600 183 50 in
  let scales := calculateScales p in
  let conv := getCoordinateConverters p scales in
  F64.is_finite (minY scales) = true
  /\ F64.is_finite (scaleY scales) = true
  /\ F64.is_nan (height p - margin p)%js = false
  /\ In (minY scales) (yData p)
  /\ SFeqb (toCanvasY conv (lit 0)) (height p - margin p)%js = true.
Proof.
  intros p scales conv.
  assert (Hlo : F64.is_finite (minY scales) = true) by (vm_compute; reflexivity).
  assert (Hs : F64.is_finite (scaleY scales) = true) by (vm_compute; reflexivity).
  assert (Hm : F64.is_nan (height p - margin p)%js = false) by (vm_compute; reflexivity).
  destruct (proj2 (minimum_on_plot_edge p) Hlo Hs Hm) as [Hin Hedge].
  split; [exact Hlo |]. split; [exact Hs |]. split; [exact Hm |].
  split; [exact Hin |]. apply Hedge. vm_compute. reflexivity.
Defined.



(** ** The layers of a redraw *)

Section MapM.

Context {B C : Type}.

Lemma mapM_nth (body : B -> option C) :
  forall (l : list B) (cs : list C) (i : nat) (b : B),
    mapM body l = Some cs -> nth_error l i = Some b ->
    exists c, body b = Some c /\ nth_error cs i = Some c.
Proof.
  induction l as [|a l IH]; intros cs i b Hm Hb; [now destruct i |].
  cbn [mapM] in Hm. destruct (body a) as [c|] eqn:Ea; [| discriminate].
  cbn [bind] in Hm. destruct (mapM body l) as [cs'|] eqn:El; [| discriminate].
  cbn [bind] in Hm. apply Some_inj in Hm. subst cs.
  destruct i as [|i]; cbn [nth_error] in *.
  - apply Some_inj in Hb. subst b. eauto.
  - exact (IH cs' i b eq_refl Hb).
Qed.

Lemma mapM_Forall (body : B -> option C) (P : C -> Prop) :
  (forall b c, body b = Some c -> P c) ->
  forall (l : list B) (cs : list C), mapM body l = Some cs -> Forall P cs.
Proof.
  intros HP. induction l as [|a l IH]; intros cs Hm; cbn [mapM] in Hm.
  - apply Some_inj in Hm. subst cs. constructor.
  - destruct (body a) as [c|] eqn:Ea; [| discriminate].
    cbn [bind] in Hm. destruct (mapM body l) as [cs'|] eqn:El; [| discriminate].
    cbn [bind] in Hm. apply Some_inj in Hm. subst cs.
    constructor; [exact (HP _ _ Ea) | exact (IH cs' eq_refl)].
Qed.

End MapM.

Lemma concat_length_const {C : Type} (n : nat) (ls : list (list C)) :
  Forall (fun l => length l = n) ls -> length (concat ls) = (n * length ls)%nat.
Proof.
  induction 1 as [|l ls Hl _ IH]; cbn [concat length]; [lia |].
  rewrite length_app, Hl, IH. lia.
Qed.

Lemma flat_map_length_const {B C : Type} (f : B -> list C) (n : nat) (l : list B) :
  (forall b, length (f b) = n) -> length (flat_map f l) = (n * length l)%nat.
Proof.
  intros Hf. induction l as [|b l IH]; cbn [flat_map length]; [lia |].
  rewrite length_app, Hf, IH. lia.
Qed.

Section Layers.

Context {A : Type} `{Number A}.
Variable p : GraphProps A.
Hypothesis Hvalid : valid_series p.

Local Abbreviation scales := (calculateScales p).
Local Abbreviation conv := (getCoordinateConverters p scales).
Local Abbreviation indices := (seq 0 (length (xData p))).

Lemma nth_indices (i : nat) (x : A) :
  read (xData p) i = Some x -> nth_error indices i = Some i.
Proof.
  intros Hx. assert (Hi : (i < length (xData p))%nat)
    by (apply nth_error_Some; unfold read in Hx; congruence).
  rewrite nth_error_seq.
  destruct (Nat.ltb_spec i (length (xData p))); [reflexivity | lia].
Qed.

(** The path and the markers, point by point. *)
Lemma series_layers :
  exists line markers,
    mapM (polylinePoint p scales) indices = Some line
    /\ mapM (pointMarker p scales) indices = Some markers
    /\ length line = length (xData p)
    /\ length markers = length (xData p)
    /\ Forall (fun ops => length ops = 3%nat) markers
    /\ forall i x y,
        read (xData p) i = Some x -> read (yData p) i = Some y ->
        nth_error line i
        = Some (if Nat.eqb i 0
                then moveTo (toCanvasX conv x) (toCanvasY conv y)
                else lineTo (toCanvasX conv x) (toCanvasY conv y))
        /\ nth_error markers i
           = Some [ beginPath;
                    arc (toCanvasX conv x) (toCanvasY conv y) (lit 4);
                    fill ].
Proof.
  destruct (mapM_total (polylinePoint p scales) indices) as (line & Hline & HlenL).
  { intros i Hi. apply in_seq in Hi. unfold polylinePoint.
    destruct (read_in_range (xData p) (i := i)) as (x & Hx); [lia |].
    destruct (read_in_range (yData p) (i := i)) as (y & Hy);
      [destruct Hvalid; lia |].
    rewrite Hx, Hy; cbn [bind]. eauto. }
  destruct (mapM_total (pointMarker p scales) indices) as (markers & Hmark & HlenM).
  { intros i Hi. apply in_seq in Hi. unfold pointMarker.
    destruct (read_in_range (xData p) (i := i)) as (x & Hx); [lia |].
    destruct (read_in_range (yData p) (i := i)) as (y & Hy);
      [destruct Hvalid; lia |].
    rewrite Hx, Hy; cbn [bind]. eauto. }
  exists line, markers. rewrite length_seq in HlenL, HlenM.
  split; [exact Hline |]. split; [exact Hmark |].
  split; [exact HlenL |]. split; [exact HlenM |]. split.
  - apply (mapM_Forall (pointMarker p scales)) with (l := indices); [| exact Hmark].
    intros i ops. unfold pointMarker.
    destruct (read (xData p) i); [| discriminate].
    destruct (read (yData p) i); [| discriminate].
    cbn [bind]. intros E. apply Some_inj in E. now subst ops.
  - intros i x y Hx Hy. pose proof (nth_indices i Hx) as Hi. split.
    + destruct (mapM_nth _ _ _ Hline Hi) as (c & Hc & Hnth).
      unfold polylinePoint in Hc. rewrite Hx, Hy in Hc. cbn [bind] in Hc.
      now rewrite Hnth, <- Hc.
    + destruct (mapM_nth _ _ _ Hmark Hi) as (c & Hc & Hnth).
      unfold pointMarker in Hc. rewrite Hx, Hy in Hc. cbn [bind] in Hc.
      now rewrite Hnth, <- Hc.
Qed.

Lemma drawHover_length (hoveredPoint : option Z) (ops : list (DrawOp A)) :
  drawHover p scales hoveredPoint = Some ops ->
  length ops = 0%nat \/ length ops = 8%nat.
Proof.
  unfold drawHover. destruct hoveredPoint as [h|];
    [| intros E; apply Some_inj in E; subst ops; now left].
  destruct (_ && _)%bool; [| intros E; apply Some_inj in E; subst ops; now left].
  destruct (read (xData p) (Z.to_nat h)); [| discriminate].
  destruct (read (yData p) (Z.to_nat h)); [| discriminate].
  cbn [bind]. intros E. apply Some_inj in E. subst ops. now right.
Qed.

(** The whole redraw, layer by layer. *)
Lemma drawGraph_layers (hoveredPoint : option Z) (canvas : Canvas A) :
  context2d canvas = true ->
  exists line markers hover,
    mapM (polylinePoint p scales) indices = Some line
    /\ mapM (pointMarker p scales) indices = Some markers
    /\ drawHover p scales hoveredPoint = Some hover
    /\ drawGraph p hoveredPoint (Some canvas)
       = Some ([ clearRect (lit 0) (lit 0) (width p) (height p);
                 strokeStyle (gridColor p); lineWidth (lit 1);
                 font "12px Arial"; fillStyle "#666" ]
               ++ drawGrid p scales
               ++ drawAxes p
               ++ [ strokeStyle (lineColor p); lineWidth (lit 2); beginPath ]
               ++ line ++ [ stroke ]
               ++ [ fillStyle (pointColor p) ] ++ concat markers
               ++ hover).
Proof.
  intros Hctx.
  destruct series_layers as (line & markers & Hline & Hmark & _).
  destruct (drawHover_total Hvalid scales hoveredPoint) as (hover & Hhover & _).
  exists line, markers, hover.
  split; [exact Hline |]. split; [exact Hmark |]. split; [exact Hhover |].
  unfold drawGraph. rewrite Hctx. cbn [negb].
  rewrite Hline, Hmark, Hhover. reflexivity.
Qed.

End Layers.

(** X9 (drawGraph, lines 60-167): for a valid series on a canvas with a
    2d context, a redraw is the clear and the grid style, the grid, the
    axes, the line style and [beginPath], one path operation per point,
    [stroke], the point colour, three operations per point, and the
    hover layer, in that order.  The path operation of point i is at
    position i: a [moveTo] for i = 0 and a [lineTo] otherwise, to the
    pixel of (X[i], Y[i]); the points are taken in index order, whatever
    their X values.  The marker of point i is an arc of radius 4 at the
    same pixel. *)
Theorem series_path_in_index_order {A : Type} `{Number A}
        (p : GraphProps A) (hoveredPoint : option Z) (canvas : Canvas A) :
  valid_series p -> context2d canvas = true ->
  let scales := calculateScales p in
  let conv := getCoordinateConverters p scales in
  exists line markers hover,
    drawGraph p hoveredPoint (Some canvas)
    = Some ([ clearRect (lit 0) (lit 0) (width p) (height p);
              strokeStyle (gridColor p); lineWidth (lit 1);
              font "12px Arial"; fillStyle "#666" ]
            ++ drawGrid p scales
            ++ drawAxes p
            ++ [ strokeStyle (lineColor p); lineWidth (lit 2); beginPath ]
            ++ line ++ [ stroke ]
            ++ [ fillStyle (pointColor p) ] ++ concat markers
            ++ hover)
    /\ length line = length (xData p)
    /\ length markers = length (xData p)
    /\ forall i x y,
        read (xData p) i = Some x -> read (yData p) i = Some y ->
        nth_error line i
        = Some (if Nat.eqb i 0
                then moveTo (toCanvasX conv x) (toCanvasY conv y)
                else lineTo (toCanvasX conv x) (toCanvasY conv y))
        /\ nth_error markers i
           = Some [ beginPath;
                    arc (toCanvasX conv x) (toCanvasY conv y) (lit 4);
                    fill ].
Proof.
  intros Hvalid Hctx scales conv.
  destruct (drawGraph_layers Hvalid hoveredPoint canvas Hctx)
    as (line & markers & hover & Hline & Hmark & _ & Hdraw).
  destruct (series_layers Hvalid)
    as (line' & markers' & Hline' & Hmark' & HlenL & HlenM & _ & Hnth).
  rewrite Hline in Hline'. rewrite Hmark in Hmark'.
  apply Some_inj in Hline'. apply Some_inj in Hmark'. subst line' markers'.
  exists line, markers, hover.
  split; [exact Hdraw |]. split; [exact HlenL |]. split; [exact HlenM | exact Hnth].
Qed.

Lemma series_path_in_index_order_witness :
  let p : GraphProps F64.t := demo in
  let scales := calculateScales p in
  let conv := getCoordinateConverters p scales in
  exists line markers hover,
    drawGraph p None (Some hostCanvas)
    = Some ([ clearRect (lit 0) (lit 0) (width p) (height p);
              strokeStyle (gridColor p); lineWidth (lit 1);
              font "12px Arial"; fillStyle "#666" ]
            ++ drawGrid p scales
            ++ drawAxes p
            ++ [ strokeStyle (lineColor p); lineWidth (lit 2); beginPath ]
            ++ line ++ [ stroke ]
            ++ [ fillStyle (pointColor p) ] ++ concat markers
            ++ hover)
    /\ length line = length (xData p)
    /\ length markers = length (xData p)
    /\ forall i x y,
        read (xData p) i = Some x -> read (yData p) i = Some y ->
        nth_error line i
        = Some (if Nat.eqb i 0
                then moveTo (toCanvasX conv x) (toCanvasY conv y)
                else lineTo (toCanvasX conv x) (toCanvasY conv y))
        /\ nth_error markers i
           = Some [ beginPath;
                    arc (toCanvasX conv x) (toCanvasY conv y) (lit 4);
                    fill ].
Proof.
  apply (@series_path_in_index_order F64.t binary64 demo None hostCanvas);
    [split; [reflexivity | discriminate] | reflexivity].
Defined.

(** X10 (handleMouseMove, lines 171-201, with the hover layer of
    drawGraph, lines 148-167): the hover state that the hit tester sets
    for a valid series is either [null], and the next redraw has no
    hover layer, or the index i of a point, and the hover layer of the
    next redraw is a red arc of radius 6 at the pixel of (X[i], Y[i])
    with that point's coordinates as a label 10 pixels to the right and
    10 pixels up: the guard of line 148 never discards an index that the
    hit tester produced. *)
Theorem hovered_point_is_highlighted {A : Type} `{Number A} `{!Metric A}
        (p : GraphProps A) (host : Canvas A) (event : MouseEvent A)
        (before h : option Z) :
  valid_series p ->
  handleMouseMove p (Some host) event before = Some h ->
  let scales := calculateScales p in
  let conv := getCoordinateConverters p scales in
  (h = None /\ drawHover p scales h = Some [])
  \/ (exists i x y,
         h = Some (Z.of_nat i)
         /\ read (xData p) i = Some x /\ read (yData p) i = Some y
         /\ drawHover p scales h
            = Some [ fillStyle "#ff0000";
                     beginPath;
                     arc (toCanvasX conv x) (toCanvasY conv y) (lit 6);
                     fill;
                     fillStyle "#000"; font "14px Arial"; textAlign AlignLeft;
                     fillText (Coordinates x y)
                              (toCanvasX conv x + lit 10)%js
                              (toCanvasY conv y - lit 10)%js ]).
Proof.
  intros Hvalid Hmove scales conv.
  destruct (handleMouseMove_in_range Hvalid host event before) as (h' & Hh' & Hrange).
  rewrite Hmove in Hh'. apply Some_inj in Hh'. subst h'.
  destruct h as [c|]; [right | left; split; reflexivity].
  cbn [hoverInRange] in Hrange.
  pose proof Hrange as Hguard.
  apply andb_true_iff in Hrange. destruct Hrange as [H0 Hlt].
  apply Z.leb_le in H0. apply Z.ltb_lt in Hlt.
  assert (Hi : (Z.to_nat c < length (xData p))%nat) by lia.
  destruct (read_in_range (xData p) Hi) as (x & Hx).
  destruct (read_in_range (yData p) (i := Z.to_nat c)) as (y & Hy);
    [destruct Hvalid; lia |].
  exists (Z.to_nat c), x, y.
  split; [f_equal; lia |]. split; [exact Hx |]. split; [exact Hy |].
  unfold drawHover. rewrite Hguard, Hx, Hy. reflexivity.
Qed.

Lemma hovered_point_is_highlighted_witness :
  let p : GraphProps F64.t := demo in
  let scales := calculateScales p in
  let conv := getCoordinateConverters p scales in
  handleMouseMove p (Some hostCanvas) (mouseAt 750 50) None = Some (Some 9%Z)
  /\ exists i x y,
      Some 9%Z = Some (Z.of_nat i)
      /\ read (xData p) i = Some x /\ read (yData p) i = Some y
      /\ drawHover p scales (Some 9%Z)
         = Some [ fillStyle "#ff0000";
                  beginPath;
                  arc (toCanvasX conv x) (toCanvasY conv y) (lit 6);
                  fill;
                  fillStyle "#000"; font "14px Arial"; textAlign AlignLeft;
                  fillText (Coordinates x y)
                           (toCanvasX conv x + lit 10)%js
                           (toCanvasY conv y - lit 10)%js ].
Proof.
  intros p scales conv.
  assert (Hvalid : valid_series p) by (split; [reflexivity | discriminate]).
  assert (Hmove : handleMouseMove p (Some hostCanvas) (mouseAt 750 50) None
                  = Some (Some 9%Z)) by (vm_compute; reflexivity).
  split; [exact Hmove |].
  destruct (@hovered_point_is_highlighted F64.t binary64 binary64_metric
              p hostCanvas (mouseAt 750 50) None (Some 9%Z) Hvalid Hmove)
    as [[Hnone _] | Hsome]; [discriminate Hnone | exact Hsome].
Defined.

(** X11 (drawGraph, lines 52-168, run by the effect of lines 207-209),
    binary64: for a valid series of N points on a canvas with a 2d
    context, the component renders the canvas element and the redraw
    issues at least 4 N + 20 and at most 4 N + 160 canvas operations,
    whatever the data values and the hover state: the two grid loops
    run at most 11 times each. *)
Theorem redraw_is_linear (p : GraphProps F64.t) (hoveredPoint : option Z)
        (host : Canvas F64.t) :
  valid_series p -> context2d host = true ->
  exists ops,
    render p hoveredPoint host = (CanvasView (width p) (height p), Some ops)
    /\ (4 * length (xData p) + 20 <= length ops)%nat
    /\ (length ops <= 4 * length (xData p) + 160)%nat.
Proof.
  intros Hvalid Hctx.
  destruct (drawGraph_layers Hvalid hoveredPoint host Hctx)
    as (line & markers & hover & Hline & Hmark & Hhover & Hdraw).
  destruct (series_layers Hvalid)
    as (line' & markers' & Hline' & Hmark' & HlenL & HlenM & Hthree & _).
  rewrite Hline in Hline'. rewrite Hmark in Hmark'.
  apply Some_inj in Hline'. apply Some_inj in Hmark'. subst line' markers'.
  eexists. unfold render. rewrite (Graph_valid Hvalid). cbn [attachRef].
  split; [rewrite Hdraw; reflexivity |].
  pose proof (concat_length_const Hthree) as Hmarks.
  pose proof (drawHover_length _ _ Hhover) as Hh.
  pose proof (proj1 (GridF64.f64_countUpTo_gridFuel
                       (maxX (calculateScales p) - minX (calculateScales p))%js
                       gridFuel)) as HnX.
  pose proof (proj1 (GridF64.f64_countUpTo_gridFuel
                       (maxY (calculateScales p) - minY (calculateScales p))%js
                       gridFuel)) as HnY.
  assert (HgX : length (flat_map (verticalLine p (calculateScales p)
                                              (xSteps (calculateScales p)))
                                (countUpTo gridFuel 0 (xSteps (calculateScales p))))
                = (6 * length (countUpTo gridFuel 0 (xSteps (calculateScales p))))%nat)
    by (apply flat_map_length_const; reflexivity).
  assert (HgY : length (flat_map (horizontalLine p (calculateScales p)
                                                (ySteps (calculateScales p)))
                                (countUpTo gridFuel 0 (ySteps (calculateScales p))))
                = (6 * length (countUpTo gridFuel 0 (ySteps (calculateScales p))))%nat)
    by (apply flat_map_length_const; reflexivity).
  change (Math_min [lit 10; (maxX (calculateScales p)
                             - minX (calculateScales p))%js])
    with (xSteps (calculateScales p)) in HnX.
  change (Math_min [lit 10; (maxY (calculateScales p)
                             - minY (calculateScales p))%js])
    with (ySteps (calculateScales p)) in HnY.
  rewrite !length_app. unfold drawGrid. rewrite length_app, HgX, HgY.
  rewrite Hmarks, HlenL, HlenM. cbn [length drawAxes]. lia.
Qed.

Lemma redraw_is_linear_witness :
  exists ops,
    render (demo (A := F64.t)) (Some 9%Z) hostCanvas
    = (CanvasView (width demo) (height demo), Some ops)
    /\ (4 * length (xData (demo (A := F64.t))) + 20 <= length ops)%nat
    /\ (length ops <= 4 * length (xData (demo (A := F64.t))) + 160)%nat.
Proof.
  apply (@redraw_is_linear demo (Some 9%Z) hostCanvas);
    [split; [reflexivity | discriminate] | reflexivity].
Defined.

(** * The grid layer of a redraw *)

(** ** The grid loops, iteration by iteration *)

Section GridLoops.

Context {A : Type} `{Number A}.

(** A loop that cannot run more than [fuel] times runs for the counter
    values i, i + 1, ..., up to the last one that passes the test. *)
Lemma countUpTo_shape (steps : A) :
  forall (fuel : nat) (i : Z),
    (lit (i + Z.of_nat fuel) <=? steps)%js = false ->
    (length (countUpTo fuel i steps) <= fuel)%nat
    /\ countUpTo fuel i steps
       = map (fun k => (i + Z.of_nat k)%Z) (seq 0 (length (countUpTo fuel i steps)))
    /\ match length (countUpTo fuel i steps) with
       | O => (lit i <=? steps)%js = false
       | S k => (lit (i + Z.of_nat k) <=? steps)%js = true
                /\ (lit (i + Z.of_nat k + 1) <=? steps)%js = false
       end.
Proof.
  induction fuel as [|fuel IH]; intros i Hstop.
  - cbn [countUpTo length seq map]. rewrite Z.add_0_r in Hstop. auto.
  - cbn [countUpTo]. destruct (lit i <=? steps)%js eqn:Etest;
      [| cbn [length seq map]; split; [lia | auto]].
    destruct (IH (i + 1)%Z) as (Hlen & Hseq & Hlast).
    { now replace (i + 1 + Z.of_nat fuel)%Z with (i + Z.of_nat (S fuel))%Z by lia. }
    cbn [length]. split; [lia |]. split.
    + cbn [seq map]. rewrite Z.add_0_r. f_equal.
      rewrite Hseq at 1. rewrite <- seq_shift, map_map.
      apply map_ext. intros k. lia.
    + destruct (length (countUpTo fuel (i + 1) steps)) as [|k].
      * cbn [Z.of_nat]. rewrite Z.add_0_r. auto.
      * destruct Hlast as [Hpass Hfail]. split.
        -- now replace (i + Z.of_nat (S k))%Z with (i + 1 + Z.of_nat k)%Z by lia.
        -- now replace (i + Z.of_nat (S k) + 1)%Z with (i + 1 + Z.of_nat k + 1)%Z by lia.
Qed.

(** The loop of an axis, from 0: as many iterations as [gridCount] says. *)
Lemma countUpTo_gridCount (steps : A) (fuel : nat) :
  (lit (Z.of_nat fuel) <=? steps)%js = false ->
  exists n, (n <= fuel)%nat
            /\ countUpTo fuel 0 steps = map Z.of_nat (seq 0 n)
            /\ gridCount steps n.
Proof.
  intros Hstop. destruct (countUpTo_shape steps fuel 0 Hstop) as (Hlen & Hseq & Hlast).
  exists (length (countUpTo fuel 0 steps)).
  split; [exact Hlen |]. split; [exact Hseq |].
  destruct (length (countUpTo fuel 0 steps)) as [|k]; exact Hlast.
Qed.

(** The grid the loops draw, gridline by gridline. *)
Lemma drawGrid_gridLayer (p : GraphProps A) (nx ny : nat) :
  countUpTo gridFuel 0 (xSteps (calculateScales p)) = map Z.of_nat (seq 0 nx) ->
  countUpTo gridFuel 0 (ySteps (calculateScales p)) = map Z.of_nat (seq 0 ny) ->
  drawGrid p (calculateScales p) = gridLayer p nx ny.
Proof.
  intros HX HY. unfold drawGrid, gridLayer. rewrite HX, HY.
  rewrite !flat_map_concat_map, !map_map. reflexivity.
Qed.

End GridLoops.

(** ** The number of gridlines in binary64 *)

Module GridCountF64.

(** The counters 0, ..., 11 are in order as doubles. *)
Lemma lit_mono (a b : nat) :
  (a <= b)%nat -> (b <= 11)%nat ->
  SFleb (F64.of_Z (Z.of_nat a)) (F64.of_Z (Z.of_nat b)) = true.
Proof.
  intros Hab Hb.
  do 12 (destruct a as [|a];
         [do 12 (destruct b as [|b]; [try lia; vm_compute; reflexivity |]); lia |]).
  lia.
Qed.

(** No counter passes the test once a lower one has failed it. *)
Lemma fails_onwards (steps : F64.t) (a b : nat) :
  (a <= b)%nat -> (b <= 11)%nat ->
  SFleb (F64.of_Z (Z.of_nat a)) steps = false ->
  SFleb (F64.of_Z (Z.of_nat b)) steps = false.
Proof.
  intros Hab Hb Hfail.
  destruct (SFleb (F64.of_Z (Z.of_nat b)) steps) eqn:E; [| reflexivity].
  rewrite (F64Bounds.f64_leb_trans _ _ _ (lit_mono Hab Hb) E) in Hfail.
  discriminate Hfail.
Qed.

Lemma gridCount_below (steps : F64.t) (n n' : nat) :
  (n < n')%nat -> (n' <= 11)%nat ->
  gridCount steps n -> gridCount steps n' -> False.
Proof.
  intros Hlt Hb Hn Hn'. destruct n' as [|k']; [lia |].
  destruct Hn' as [Hpass _].
  change (SFleb (F64.of_Z (Z.of_nat k')) steps = true) in Hpass.
  assert (Hfail : SFleb (F64.of_Z (Z.of_nat n)) steps = false).
  { destruct n as [|k]; [exact Hn |]. destruct Hn as [_ Hfail].
    change (SFleb (F64.of_Z (Z.of_nat k + 1)) steps = false) in Hfail.
    now replace (Z.of_nat (S k)) with (Z.of_nat k + 1)%Z by lia. }
  rewrite (@fails_onwards steps n k') in Hpass; [discriminate Hpass | lia | lia |].
  exact Hfail.
Qed.

(** The count is determined by the step count. *)
Lemma gridCount_unique (steps : F64.t) (n n' : nat) :
  (n <= 11)%nat -> (n' <= 11)%nat ->
  gridCount steps n -> gridCount steps n' -> n = n'.
Proof.
  intros Hn Hn' Hc Hc'.
  destruct (Nat.lt_trichotomy n n') as [Hlt | [Heq | Hgt]]; [| exact Heq |].
  - destruct (@gridCount_below steps n n' Hlt Hn' Hc Hc').
  - destruct (@gridCount_below steps n' n Hgt Hn Hc' Hc).
Qed.

(** The loop of an axis of range [r]. *)
Lemma f64_grid_count (r : F64.t) :
  exists n, (n <= 11)%nat
            /\ countUpTo gridFuel 0 (Math_min [lit 10; r]) = map Z.of_nat (seq 0 n)
            /\ gridCount (Math_min [lit 10; r]) n.
Proof.
  apply (countUpTo_gridCount (Math_min [lit 10; r]) gridFuel).
  exact (GridF64.f64_steps_below_11 r).
Qed.

(** With a positive step count and a finite range, gridline 0 is at the
    lower bound. *)
Lemma first_gridline (lo range steps : F64.t) :
  SFltb (F64.of_Z 0) steps = true ->
  F64.is_finite range = true -> F64.is_finite lo = true ->
  SFeqb (SFadd F64.prec F64.emax lo
           (SFmul F64.prec F64.emax range
              (SFdiv F64.prec F64.emax (F64.of_Z 0) steps))) lo = true.
Proof.
  intros Hpos Hrange Hlo.
  apply F64RoundTrip.add_zero_r; [| now apply F64RoundTrip.finite_not_nan].
  change (F64.of_Z 0) with (S754_zero false) in *.
  destruct steps as [ss|[]| |[] ms es]; try discriminate Hpos;
    destruct range as [sr|sr| |sr mr er]; try discriminate Hrange; reflexivity.
Qed.

End GridCountF64.

Section GridF64Layer.

Variable p : GraphProps F64.t.

Local Abbreviation scales := (calculateScales p).

(** The grid of a redraw in binary64. *)
Lemma f64_drawGrid :
  exists nx ny,
    (nx <= 11)%nat /\ (ny <= 11)%nat
    /\ countUpTo gridFuel 0 (xSteps scales) = map Z.of_nat (seq 0 nx)
    /\ countUpTo gridFuel 0 (ySteps scales) = map Z.of_nat (seq 0 ny)
    /\ gridCount (xSteps scales) nx /\ gridCount (ySteps scales) ny
    /\ drawGrid p scales = gridLayer p nx ny.
Proof.
  destruct (GridCountF64.f64_grid_count (maxX scales - minX scales)%js)
    as (nx & Hnx & HX & HcX).
  destruct (GridCountF64.f64_grid_count (maxY scales - minY scales)%js)
    as (ny & Hny & HY & HcY).
  exists nx, ny. split; [exact Hnx |]. split; [exact Hny |].
  split; [exact HX |]. split; [exact HY |].
  split; [exact HcX |]. split; [exact HcY |].
  exact (drawGrid_gridLayer p nx ny HX HY).
Qed.

End GridF64Layer.

(** C4 (as amended).  In binary64, for any series: the grid of a redraw
    is [nx] vertical gridlines followed by [ny] horizontal ones, gridline
    i of an axis being at min + range * (i / steps) with
    steps = min(10, range), drawn across the plot and labelled with that
    value.  The number of gridlines of an axis is determined by its step
    count: none when 0 <= steps fails (a negative or NaN step count),
    otherwise
    floor(steps) + 1, that is k + 1 for the counter k with
    k <= steps < k + 1; it is at most 11, and exactly 11 for a range of 10
    or more.  With a positive step count and finite range and minimum,
    gridline 0 is at the minimum.  For a valid series on a canvas with a
    2d context, this grid is what [drawGraph] draws between the grid
    style and the axes.  In exact arithmetic, for a valid series, the
    grid is floor(steps) + 1 gridlines per axis; when the range is not
    zero they start at the minimum and are evenly spaced, range / steps
    apart, and the last one is at the maximum when steps is an
    integer. *)
Theorem gridlines_count_and_spacing :
  (forall p : GraphProps F64.t,
      let scales := calculateScales p in
      exists nx ny : nat,
        drawGrid p scales = gridLayer p nx ny
        /\ gridCount (xSteps scales) nx
        /\ gridCount (ySteps scales) ny
        /\ (nx <= 11)%nat /\ (ny <= 11)%nat
        /\ (forall n, (n <= 11)%nat -> gridCount (xSteps scales) n -> n = nx)
        /\ (forall n, (n <= 11)%nat -> gridCount (ySteps scales) n -> n = ny)
        /\ ((lit 10 <=? maxX scales - minX scales)%js = true -> nx = 11%nat)
        /\ ((lit 10 <=? maxY scales - minY scales)%js = true -> ny = 11%nat)
        /\ ((lit 0 <? xSteps scales)%js = true ->
            F64.is_finite (maxX scales - minX scales)%js = true ->
            F64.is_finite (minX scales) = true ->
            SFeqb (gridValueX p 0) (minX scales) = true)
        /\ ((lit 0 <? ySteps scales)%js = true ->
            F64.is_finite (maxY scales - minY scales)%js = true ->
            F64.is_finite (minY scales) = true ->
            SFeqb (gridValueY p 0) (minY scales) = true)
        /\ (forall (hoveredPoint : option Z) (canvas : Canvas F64.t),
               valid_series p -> context2d canvas = true ->
               exists line markers hover,
                 drawGraph p hoveredPoint (Some canvas)
                 = Some ([ clearRect (lit 0) (lit 0) (width p) (height p);
                           strokeStyle (gridColor p); lineWidth (lit 1);
                           font "12px Arial"; fillStyle "#666" ]
                         ++ gridLayer p nx ny
                         ++ drawAxes p
                         ++ [ strokeStyle (lineColor p); lineWidth (lit 2);
                              beginPath ]
                         ++ line ++ [ stroke ]
                         ++ [ fillStyle (pointColor p) ] ++ concat markers
                         ++ hover)))
  /\ (forall p : GraphProps Q,
         valid_series p ->
         let scales := calculateScales p in
         drawGrid p scales
         = gridLayer p (S (Z.to_nat (Qfloor (xSteps scales))))
                       (S (Z.to_nat (Qfloor (ySteps scales))))
         /\ gridSpec (minX scales) (maxX scales) (xSteps scales)
                     (countUpTo gridFuel 0 (xSteps scales)) (gridValueX p)
         /\ gridSpec (minY scales) (maxY scales) (ySteps scales)
                     (countUpTo gridFuel 0 (ySteps scales)) (gridValueY p)).
Proof.
  split.
  - intros p scales.
    destruct (f64_drawGrid p) as (nx & ny & Hnx & Hny & HX & HY & HcX & HcY & Hgrid).
    exists nx, ny.
    split; [exact Hgrid |]. split; [exact HcX |]. split; [exact HcY |].
    split; [exact Hnx |]. split; [exact Hny |].
    split; [intros n Hn Hc; exact (@GridCountF64.gridCount_unique _ n nx Hn Hnx Hc HcX) |].
    split; [intros n Hn Hc; exact (@GridCountF64.gridCount_unique _ n ny Hn Hny Hc HcY) |].
    split.
    { intros Hwide. pose proof (GridF64.f64_wide_range _ Hwide) as Hall.
      change (Math_min [lit 10; (maxX scales - minX scales)%js])
        with (xSteps (calculateScales p)) in Hall.
      rewrite HX in Hall. apply (f_equal (@length Z)) in Hall.
      rewrite length_map, length_seq in Hall. exact Hall. }
    split.
    { intros Hwide. pose proof (GridF64.f64_wide_range _ Hwide) as Hall.
      change (Math_min [lit 10; (maxY scales - minY scales)%js])
        with (ySteps (calculateScales p)) in Hall.
      rewrite HY in Hall. apply (f_equal (@length Z)) in Hall.
      rewrite length_map, length_seq in Hall. exact Hall. }
    split; [intros Hpos Hrange Hlo;
            exact (@GridCountF64.first_gridline _ _ _ Hpos Hrange Hlo) |].
    split; [intros Hpos Hrange Hlo;
            exact (@GridCountF64.first_gridline _ _ _ Hpos Hrange Hlo) |].
    intros hoveredPoint canvas Hvalid Hctx.
    destruct (drawGraph_layers Hvalid hoveredPoint canvas Hctx)
      as (line & markers & hover & _ & _ & _ & Hdraw).
    exists line, markers, hover. rewrite Hdraw. now rewrite Hgrid.
  - intros p [Hlen Hne] scales.
    assert (HsX : gridSpec (minX scales) (maxX scales) (xSteps scales)
                           (countUpTo gridFuel 0 (xSteps scales)) (gridValueX p)).
    { apply (@gridSpec_axis (minX scales) (maxX scales)).
      apply (GridExact.range_nonneg (xs := xData p)).
      intros E. apply Hne. now rewrite E. }
    assert (HsY : gridSpec (minY scales) (maxY scales) (ySteps scales)
                           (countUpTo gridFuel 0 (ySteps scales)) (gridValueY p)).
    { apply (@gridSpec_axis (minY scales) (maxY scales)).
      apply (GridExact.range_nonneg (xs := yData p)).
      intros E. apply Hne. now rewrite Hlen, E. }
    split; [| split; [exact HsX | exact HsY]].
    apply drawGrid_gridLayer.
    + exact (proj1 (proj2 (proj2 HsX))).
    + exact (proj1 (proj2 (proj2 HsY))).
Qed.

Lemma gridlines_count_and_spacing_witness :
  let p : GraphProps F64.t := demo in
  let q : GraphProps Q := demo in
  gridCount (xSteps (calculateScales p)) 10
  /\ (lit 10 <=? maxY (calculateScales p) - minY (calculateScales p))%js = true
  /\ drawGrid p (calculateScales p) = gridLayer p 10 11
  /\ valid_series q
  /\ drawGrid q (calculateScales q) = gridLayer q 10 11
  /\ gridSpec (minX (calculateScales q)) (maxX (calculateScales q))
              (xSteps (calculateScales q))
              (countUpTo gridFuel 0 (xSteps (calculateScales q))) (gridValueX q).
Proof.
  intros p q.
  assert (HcX : gridCount (xSteps (calculateScales p)) 10)
    by (split; vm_compute; reflexivity).
  assert (Hwide : (lit 10 <=? maxY (calculateScales p) - minY (calculateScales p))%js
                  = true) by (vm_compute; reflexivity).
  assert (Hvalid : valid_series q) by (split; simpl; [reflexivity | discriminate]).
  destruct (proj1 gridlines_count_and_spacing p)
    as (nx & ny & Hgrid & _ & _ & _ & _ & HuX & _ & _ & HwideY & _).
  assert (Hnx : (10 <= 11)%nat) by lia.
  pose proof (HuX 10%nat Hnx HcX) as Ex. pose proof (HwideY Hwide) as Ey.
  subst nx ny.
  destruct (proj2 gridlines_count_and_spacing q Hvalid) as (HgridQ & HspecX & _).
  split; [exact HcX |]. split; [exact Hwide |]. split; [exact Hgrid |].
  split; [exact Hvalid |]. split; [exact HgridQ | exact HspecX].
Defined.

(** C4, as stated: the Y range of [App]'s series is 81, so the loop runs
    for i = 0, ..., 10 and the grid of [App]'s view has 11 horizontal
    gridlines, not 10 at most; and with an X range of 2.5 the vertical
    gridlines are the three at 0, 1 and 2, short of the maximum 2.5. *)
Lemma gridlines_counterexample :
  let scales := calculateScales (demo (A := F64.t)) in
  let narrowScales := calculateScales narrow in
  valid_series (demo (A := F64.t))
  /\ drawGrid demo scales = gridLayer demo 10 11
  /\ countUpTo 40 0 (ySteps scales) = [0; 1; 2; 3; 4; 5; 6; 7; 8; 9; 10]%Z
  /\ length (countUpTo gridFuel 0 (ySteps scales)) = 11%nat
  /\ ~ (length (countUpTo gridFuel 0 (ySteps scales)) <= 10)%nat
  /\ valid_series narrow
  /\ drawGrid narrow narrowScales = gridLayer narrow 3 2
  /\ countUpTo gridFuel 0 (xSteps narrowScales) = [0; 1; 2]%Z
  /\ gridValueX narrow 2 == 2
  /\ maxX narrowScales == 5 # 2.
Proof.
  intros scales narrowScales.
  split; [split; simpl; [reflexivity | discriminate] |].
  split; [apply drawGrid_gridLayer; vm_compute; reflexivity |].
  split; [vm_compute; reflexivity |].
  assert (Hlen : length (countUpTo gridFuel 0 (ySteps scales)) = 11%nat)
    by (vm_compute; reflexivity).
  split; [exact Hlen |]. split; [rewrite Hlen; lia |].
  split; [split; simpl; [reflexivity | discriminate] |].
  split; [apply drawGrid_gridLayer; vm_compute; reflexivity |].
  split; [vm_compute; reflexivity |].
  split; vm_compute; reflexivity.
Qed.

(** C10: in binary64, for a valid series on a canvas with a 2d context,
    when the maximum and minimum on an axis are equal and finite, the
    step count of that axis is a zero, the gridline loop runs exactly
    once with i = 0, the term i / steps is 0 / 0 = NaN, and the grid that
    [drawGraph] draws has, for that axis, the one gridline whose
    [moveTo], [lineTo] and [fillText] are handed the coordinate NaN and
    whose label is the value NaN. *)
Theorem degenerate_range_gridline_is_NaN
        (p : GraphProps F64.t) (hoveredPoint : option Z) (canvas : Canvas F64.t) :
  valid_series p -> context2d canvas = true ->
  let scales := calculateScales p in
  (SFeqb (maxX scales) (minX scales) = true ->
   F64.is_finite (maxX scales) = true ->
     F64.is_zero (xSteps scales) = true
     /\ countUpTo gridFuel 0 (xSteps scales) = [0%Z]
     /\ (lit 0 / xSteps scales)%js = F64.NaN
     /\ gridValueX p 0 = F64.NaN
     /\ exists ny line markers hover,
          drawGrid p scales
          = [ beginPath;
              moveTo F64.NaN (margin p);
              lineTo F64.NaN (height p - margin p)%js;
              stroke;
              textAlign AlignCenter;
              fillText (Fixed2 F64.NaN) F64.NaN (height p - margin p + lit 20)%js ]
            ++ flat_map (gridlineY p) (seq 0 ny)
          /\ drawGraph p hoveredPoint (Some canvas)
             = Some ([ clearRect (lit 0) (lit 0) (width p) (height p);
                       strokeStyle (gridColor p); lineWidth (lit 1);
                       font "12px Arial"; fillStyle "#666" ]
                     ++ ([ beginPath;
                           moveTo F64.NaN (margin p);
                           lineTo F64.NaN (height p - margin p)%js;
                           stroke;
                           textAlign AlignCenter;
                           fillText (Fixed2 F64.NaN) F64.NaN
                                    (height p - margin p + lit 20)%js ]
                         ++ flat_map (gridlineY p) (seq 0 ny))
                     ++ drawAxes p
                     ++ [ strokeStyle (lineColor p); lineWidth (lit 2); beginPath ]
                     ++ line ++ [ stroke ]
                     ++ [ fillStyle (pointColor p) ] ++ concat markers
                     ++ hover))
  /\ (SFeqb (maxY scales) (minY scales) = true ->
      F64.is_finite (maxY scales) = true ->
     F64.is_zero (ySteps scales) = true
     /\ countUpTo gridFuel 0 (ySteps scales) = [0%Z]
     /\ (lit 0 / ySteps scales)%js = F64.NaN
     /\ gridValueY p 0 = F64.NaN
     /\ exists nx line markers hover,
          drawGrid p scales
          = flat_map (gridlineX p) (seq 0 nx)
            ++ [ beginPath;
                 moveTo (margin p) F64.NaN;
                 lineTo (width p - margin p)%js F64.NaN;
                 stroke;
                 textAlign AlignRight;
                 fillText (Fixed2 F64.NaN) (margin p - lit 10)%js F64.NaN ]
          /\ drawGraph p hoveredPoint (Some canvas)
             = Some ([ clearRect (lit 0) (lit 0) (width p) (height p);
                       strokeStyle (gridColor p); lineWidth (lit 1);
                       font "12px Arial"; fillStyle "#666" ]
                     ++ (flat_map (gridlineX p) (seq 0 nx)
                         ++ [ beginPath;
                              moveTo (margin p) F64.NaN;
                              lineTo (width p - margin p)%js F64.NaN;
                              stroke;
                              textAlign AlignRight;
                              fillText (Fixed2 F64.NaN) (margin p - lit 10)%js
                                       F64.NaN ])
                     ++ drawAxes p
                     ++ [ strokeStyle (lineColor p); lineWidth (lit 2); beginPath ]
                     ++ line ++ [ stroke ]
                     ++ [ fillStyle (pointColor p) ] ++ concat markers
                     ++ hover)).
Proof.
  intros Hvalid Hctx scales. subst scales.
  set (scales := calculateScales p).
  destruct (drawGraph_layers Hvalid hoveredPoint canvas Hctx)
    as (line & markers & hover & _ & _ & _ & Hdraw).
  destruct (f64_drawGrid p) as (nx & ny & _ & _ & HX & HY & _ & _ & Hgrid).
  fold scales in HX, HY, Hgrid, Hdraw.
  split; intros Heq Hfin.
  - destruct (zero_range_steps (minX scales)
                (SFsub F64.prec F64.emax (maxX scales) (minX scales))
                (F64Facts.eqb_sub_zero _ _ Heq Hfin)) as (Hz & Hloop & Hdiv & Hvalue).
    split; [exact Hz |]. split; [exact Hloop |]. split; [exact Hdiv |].
    assert (Hx : gridValueX p 0 = F64.NaN) by exact Hvalue.
    split; [exact Hx |].
    assert (Hone : nx = 1%nat).
    { change (Math_min [lit 10; SFsub F64.prec F64.emax (maxX scales) (minX scales)])
        with (xSteps scales) in Hloop.
      rewrite HX in Hloop. apply (f_equal (@length Z)) in Hloop.
      now rewrite length_map, length_seq in Hloop. }
    assert (Hline : flat_map (gridlineX p) (seq 0 1)
                    = [ beginPath;
                        moveTo F64.NaN (margin p);
                        lineTo F64.NaN (height p - margin p)%js;
                        stroke;
                        textAlign AlignCenter;
                        fillText (Fixed2 F64.NaN) F64.NaN
                                 (height p - margin p + lit 20)%js ]).
    { cbn [seq flat_map]. rewrite app_nil_r. unfold gridlineX.
      change (Z.of_nat 0) with 0%Z. rewrite Hx.
      change (margin p + (F64.NaN - minX (calculateScales p))
                         * scaleX (calculateScales p))%js
        with (toCanvasX (getCoordinateConverters p (calculateScales p)) F64.NaN).
      now rewrite toCanvasX_NaN. }
    subst nx. unfold gridLayer in Hgrid. rewrite Hline in Hgrid.
    exists ny, line, markers, hover.
    split; [exact Hgrid |]. rewrite Hdraw. now rewrite Hgrid.
  - destruct (zero_range_steps (minY scales)
                (SFsub F64.prec F64.emax (maxY scales) (minY scales))
                (F64Facts.eqb_sub_zero _ _ Heq Hfin)) as (Hz & Hloop & Hdiv & Hvalue).
    split; [exact Hz |]. split; [exact Hloop |]. split; [exact Hdiv |].
    assert (Hy : gridValueY p 0 = F64.NaN) by exact Hvalue.
    split; [exact Hy |].
    assert (Hone : ny = 1%nat).
    { change (Math_min [lit 10; SFsub F64.prec F64.emax (maxY scales) (minY scales)])
        with (ySteps scales) in Hloop.
      rewrite HY in Hloop. apply (f_equal (@length Z)) in Hloop.
      now rewrite length_map, length_seq in Hloop. }
    assert (Hline : flat_map (gridlineY p) (seq 0 1)
                    = [ beginPath;
                        moveTo (margin p) F64.NaN;
                        lineTo (width p - margin p)%js F64.NaN;
                        stroke;
                        textAlign AlignRight;
                        fillText (Fixed2 F64.NaN) (margin p - lit 10)%js F64.NaN ]).
    { cbn [seq flat_map]. rewrite app_nil_r. unfold gridlineY.
      change (Z.of_nat 0) with 0%Z. rewrite Hy.
      change (height p - margin p
              - (F64.NaN - minY (calculateScales p)) * scaleY (calculateScales p))%js
        with (toCanvasY (getCoordinateConverters p (calculateScales p)) F64.NaN).
      rewrite toCanvasY_NaN. reflexivity. }
    subst ny. unfold gridLayer in Hgrid. rewrite Hline in Hgrid.
    exists nx, line, markers, hover.
    split; [exact Hgrid |]. rewrite Hdraw. now rewrite Hgrid.
Qed.

Lemma degenerate_range_gridline_is_NaN_witness :
  let p : GraphProps F64.t := viewConfig [1; 2; 3]%Z [7; 7; 7]%Z 600 400 50 in
  let q : GraphProps F64.t := viewConfig [4; 4]%Z [1; 2]%Z 600 400 50 in
  valid_series p
  /\ valid_series q
  /\ SFeqb (maxY (calculateScales p)) (minY (calculateScales p)) = true
  /\ F64.is_finite (maxY (calculateScales p)) = true
  /\ gridValueY p 0 = F64.NaN
  /\ (exists nx,
         drawGrid p (calculateScales p)
         = flat_map (gridlineX p) (seq 0 nx)
           ++ [ beginPath;
                moveTo (margin p) F64.NaN;
                lineTo (width p - margin p)%js F64.NaN;
                stroke;
                textAlign AlignRight;
                fillText (Fixed2 F64.NaN) (margin p - lit 10)%js F64.NaN ])
  /\ SFeqb (maxX (calculateScales q)) (minX (calculateScales q)) = true
  /\ F64.is_finite (maxX (calculateScales q)) = true
  /\ gridValueX q 0 = F64.NaN
  /\ (exists ny,
         drawGrid q (calculateScales q)
         = [ beginPath;
             moveTo F64.NaN (margin q);
             lineTo F64.NaN (height q - margin q)%js;
             stroke;
             textAlign AlignCenter;
             fillText (Fixed2 F64.NaN) F64.NaN (height q - margin q + lit 20)%js ]
           ++ flat_map (gridlineY q) (seq 0 ny)).
Proof.
  intros p q.
  assert (Hp : valid_series p) by (split; simpl; [reflexivity | discriminate]).
  assert (Hq : valid_series q) by (split; simpl; [reflexivity | discriminate]).
  assert (Hctx : context2d (hostCanvas (A := F64.t)) = true) by reflexivity.
  assert (HeqY : SFeqb (maxY (calculateScales p)) (minY (calculateScales p)) = true)
    by (vm_compute; reflexivity).
  assert (HfinY : F64.is_finite (maxY (calculateScales p)) = true)
    by (vm_compute; reflexivity).
  assert (HeqX : SFeqb (maxX (calculateScales q)) (minX (calculateScales q)) = true)
    by (vm_compute; reflexivity).
  assert (HfinX : F64.is_finite (maxX (calculateScales q)) = true)
    by (vm_compute; reflexivity).
  destruct (proj2 (@degenerate_range_gridline_is_NaN p None hostCanvas Hp Hctx)
                  HeqY HfinY)
    as (_ & _ & _ & HvalueY & nx & _ & _ & _ & HgridY & _).
  destruct (proj1 (@degenerate_range_gridline_is_NaN q None hostCanvas Hq Hctx)
                  HeqX HfinX)
    as (_ & _ & _ & HvalueX & ny & _ & _ & _ & HgridX & _).
  split; [exact Hp |]. split; [exact Hq |].
  split; [exact HeqY |]. split; [exact HfinY |]. split; [exact HvalueY |].
  split; [exists nx; exact HgridY |].
  split; [exact HeqX |]. split; [exact HfinX |]. split; [exact HvalueX |].
  exists ny. exact HgridX.
Defined.
